(** * PTExerciseApp: the image-lookup name matcher and the favorite toggle

    A shallow embedding of the backend of PTExerciseApp (the current
    [backend/server.js] and [backend/db/database.js], with
    [backend/db/schema.sql]) and the properties its documentation states.

    Strings.  A JavaScript string is a sequence of UTF-16 code units.  The
    model takes the code units 0..255 (Latin-1), one [ascii] each, so a
    string is a [list ascii].  On that range the built-ins used by the
    server are modelled exactly:
    - [toLowerCase] maps A..Z, U+00C0..U+00D6 and U+00D8..U+00DE to the
      code unit 32 above, and nothing else;
    - the class [\s], and the characters removed by [trim], are TAB, LF,
      VT, FF, CR, SPACE and U+00A0. *)

From Stdlib Require Import Ascii String.
From Stdlib Require Import List Bool Arith ZArith Lia.
Import ListNotations.

Set Implicit Arguments.

(** ** JavaScript strings *)

Module Js.

Definition jsstring := list ascii.

(** A string literal of the source. *)
Definition lit (s : string) : jsstring := list_ascii_of_string s.

Definition code (c : ascii) : nat := nat_of_ascii c.

Definition between (lo hi n : nat) : bool := (lo <=? n) && (n <=? hi).

(** The class [\s] of a regular expression, which is also the set of
    characters [String.prototype.trim] removes. *)
Definition isWhiteSpace (c : ascii) : bool :=
  between 9 13 (code c) || (code c =? 32) || (code c =? 160).

Definition space : ascii := " "%char.

(** [String.prototype.toLowerCase], one code unit. *)
Definition toLowerCaseChar (c : ascii) : ascii :=
  if between 65 90 (code c) || between 192 214 (code c) || between 216 222 (code c)
  then ascii_of_nat (code c + 32)
  else c.

Definition toLowerCase (s : jsstring) : jsstring := map toLowerCaseChar s.

(** The class [[-_]]. *)
Definition isHyphenOrUnderscore (c : ascii) : bool :=
  (code c =? 45) || (code c =? 95).

(** [s.replace(/[-_]/g, ' ')]: every match is one character long. *)
Definition replaceHyphenUnderscore (s : jsstring) : jsstring :=
  map (fun c => if isHyphenOrUnderscore c then space else c) s.

(** The longest match of [\s*] at the head of [s] is consumed; what is
    returned is the rest of [s]. *)
Fixpoint skipWhiteSpace (s : jsstring) : jsstring :=
  match s with
  | c :: r => if isWhiteSpace c then skipWhiteSpace r else s
  | [] => s
  end.

(** [s.replace(/\s+/g, ' ')]: scanning from the left, where [\s+] matches
    it matches greedily, the whole match is replaced by one space and the
    scan resumes after it; any other character is copied. *)
Fixpoint replaceWhiteSpaceRuns (s : jsstring) : jsstring :=
  match s with
  | [] => []
  | c :: r =>
      if isWhiteSpace c
      then space :: replaceWhiteSpaceRuns (skipWhiteSpace r)
      else c :: replaceWhiteSpaceRuns r
  end.

Definition trimStart (s : jsstring) : jsstring := skipWhiteSpace s.

Definition trimEnd (s : jsstring) : jsstring := rev (skipWhiteSpace (rev s)).

(** [String.prototype.trim]. *)
Definition trim (s : jsstring) : jsstring := trimEnd (trimStart s).

Definition eqbChar (a b : ascii) : bool := Ascii.eqb a b.

(** [s.startsWith(t)]. *)
Fixpoint startsWith (s t : jsstring) : bool :=
  match t, s with
  | [], _ => true
  | _ :: _, [] => false
  | b :: t', a :: s' => eqbChar a b && startsWith s' t'
  end.

(** [s.includes(t)]: [t] occurs in [s] at some position. *)
Fixpoint includes (s t : jsstring) : bool :=
  startsWith s t ||
  match s with
  | [] => false
  | _ :: s' => includes s' t
  end.

End Js.

Import Js.

(** ** The name normalizer

    [server.js] normalizes the query and every catalog name by the same
    chain of calls,
    [x.toLowerCase().replace(/[-_]/g, ' ').replace(/\s+/g, ' ').trim()]. *)

Definition normalizeName (x : jsstring) : jsstring :=
  trim (replaceWhiteSpaceRuns (replaceHyphenUnderscore (toLowerCase x))).

(** ** The image reference dataset and the image endpoint *)

(** One entry of [exercises.json]: [{name, images}]. *)
Record ImageCatalogEntry := {
  name : jsstring;
  images : list jsstring
}.

Definition Catalog := list ImageCatalogEntry.

(** An HTTP response: the status and the JSON body. *)
Record Response (B : Type) := {
  status : nat;
  body : B
}.

(** [res.json(b)] answers with the default status, 200. *)
Definition res_json {B : Type} (b : B) : Response B :=
  {| status := 200; body := b |}.

(** [res.status(code).json(b)]. *)
Definition res_status_json {B : Type} (code : nat) (b : B) : Response B :=
  {| status := code; body := b |}.

(** The body of the image endpoint, [{images, found}]; [None] is [null]. *)
Record ImageBody := {
  body_images : option (list jsstring);
  found : bool
}.

Definition not_found_body : ImageBody :=
  {| body_images := None; found := false |}.

(** [loadExerciseDatabase]: the value of the global [exerciseDatabase] after
    the call.  [fetched] is the outcome of [axios.get]: the data of the
    response, or [None] when the request is rejected, which the function
    catches and logs. *)
Definition loadExerciseDatabase (fetched exerciseDatabase : option Catalog)
  : option Catalog :=
  match fetched with
  | Some data => Some data
  | None => exerciseDatabase
  end.

(** The callback given to [exerciseDatabase.find]. *)
Definition matchesName (normalizedSearchName : jsstring) (ex : ImageCatalogEntry)
  : bool :=
  let normalizedExName := normalizeName (name ex) in
  includes normalizedExName normalizedSearchName
  || includes normalizedSearchName normalizedExName.

(** [exerciseDatabase.find(ex => ...)]; [None] is [undefined]. *)
Definition matchingExercise (exerciseName : jsstring) (exerciseDatabase : Catalog)
  : option ImageCatalogEntry :=
  let normalizedSearchName := normalizeName exerciseName in
  find (matchesName normalizedSearchName) exerciseDatabase.

(** The template literal that builds one image URL. *)
Definition imageUrl (img : jsstring) : jsstring :=
  lit "https://raw.githubusercontent.com/yuhonas/free-exercise-db/main/exercises/"
  ++ img.

(** [app.get('/api/exercise-image/:exerciseName')].  The handler reads and
    may assign the global [exerciseDatabase]; it returns the response and the
    global's value afterwards.  With entries of the type above nothing in
    the [try] block throws, so the [catch] branch (which answers
    [{images: null, found: false}] as well) is never taken. *)
Definition getExerciseImage
  (fetched : option Catalog) (exerciseDatabase : option Catalog)
  (exerciseName : jsstring) : Response ImageBody * option Catalog :=
  let exerciseDatabase :=
    match exerciseDatabase with
    | None => loadExerciseDatabase fetched exerciseDatabase
    | Some _ => exerciseDatabase
    end in
  match exerciseDatabase with
  | None => (res_json not_found_body, exerciseDatabase)
  | Some db =>
      match matchingExercise exerciseName db with
      | Some ex =>
          if 0 <? length (images ex)
          then (res_json {| body_images := Some (map imageUrl (images ex));
                            found := true |}, exerciseDatabase)
          else (res_json not_found_body, exerciseDatabase)
      | None => (res_json not_found_body, exerciseDatabase)
      end
  end.

(** ** The catalog store: table [Exercises] of [schema.sql] *)

Module Database.

Definition timestamp := Z.

(** One row.  The columns declared [NOT NULL] hold a value; [None] is SQL
    [NULL] in the others. *)
Record Row := {
  id : Z;
  exercise_name : jsstring;
  exercise_type : jsstring;
  muscle : jsstring;
  equipment : jsstring;
  difficulty : jsstring;
  instructions : jsstring;
  is_favorited : option Z;
  last_updated : option timestamp;
  created_timestamp : option timestamp
}.

(** The table in rowid order, and the largest rowid ever used, which
    [AUTOINCREMENT] keeps in [sqlite_sequence]. *)
Record Store := {
  rows : list Row;
  seq : Z
}.

(** What [updateExercise] and [toggleFavorite] resolve to:
    [{ changes: this.changes }]. *)
Record RunResult := {
  changes : nat
}.

(** [UPDATE Exercises SET ... WHERE id = ?]: [set] is applied to every row
    whose [id] is the key; [changes] counts them. *)
Definition updateWhereId (set : Row -> Row) (key : Z) (st : Store)
  : RunResult * Store :=
  ({| changes := length (filter (fun r => id r =? key)%Z (rows st)) |},
   {| rows := map (fun r => if (id r =? key)%Z then set r else r) (rows st);
      seq := seq st |}).

(** [CASE WHEN is_favorited = 1 THEN 0 ELSE 1 END]; the comparison of
    [NULL] with 1 is not true. *)
Definition caseFavorited (v : option Z) : option Z :=
  match v with
  | Some 1%Z => Some 0%Z
  | _ => Some 1%Z
  end.

(** The [SET] clause of [toggleFavorite]; [now] is [CURRENT_TIMESTAMP]. *)
Definition setToggle (now : timestamp) (r : Row) : Row :=
  {| id := id r;
     exercise_name := exercise_name r;
     exercise_type := exercise_type r;
     muscle := muscle r;
     equipment := equipment r;
     difficulty := difficulty r;
     instructions := instructions r;
     is_favorited := caseFavorited (is_favorited r);
     last_updated := Some now;
     created_timestamp := created_timestamp r |}.

Definition toggleFavorite (now : timestamp) (key : Z) (st : Store)
  : RunResult * Store :=
  updateWhereId (setToggle now) key st.

(** [SELECT * FROM Exercises WHERE id = ?] through [db.get]: the first row,
    or [None] for [undefined]. *)
Definition getExerciseById (key : Z) (st : Store) : option Row :=
  find (fun r => id r =? key)%Z (rows st).

(** [SELECT id FROM Exercises WHERE exercise_name = ? LIMIT 1], then
    [!!row]. *)
Definition exerciseExists (nm : jsstring) (st : Store) : bool :=
  match find (fun r => if list_eq_dec ascii_dec (exercise_name r) nm
                       then true else false) (rows st) with
  | Some _ => true
  | None => false
  end.

(** A value of the JSON body of a request: a string or a boolean.  The body
    of a [PUT] is the list of its entries, [Object.entries(updates)], whose
    keys are distinct. *)
Inductive JsValue :=
| JsStr (s : jsstring)
| JsBool (b : bool).

Definition truthy (v : JsValue) : bool :=
  match v with
  | JsStr [] => false
  | JsStr (_ :: _) => true
  | JsBool b => b
  end.

(** What a column of type [TEXT] stores when the value is bound to the
    statement: a string as it is, a boolean as the text of the integer it
    is bound as. *)
Definition boundText (v : JsValue) : jsstring :=
  match v with
  | JsStr s => s
  | JsBool true => lit "1"
  | JsBool false => lit "0"
  end.

Definition allowedFields : list jsstring :=
  [lit "exercise_name"; lit "exercise_type"; lit "muscle"; lit "equipment";
   lit "difficulty"; lit "instructions"; lit "is_favorited"].

(** [allowedFields.includes(key)]. *)
Definition isAllowed (key : jsstring) : bool :=
  existsb (fun f => if list_eq_dec ascii_dec f key then true else false)
          allowedFields.

Definition keyIs (key : jsstring) (col : string) : bool :=
  if list_eq_dec ascii_dec key (lit col) then true else false.

(** One assignment [key = ?] of the [SET] clause with its bound value. *)
Definition assign (key : jsstring) (value : JsValue) (r : Row) : Row :=
  {| id := id r;
     exercise_name :=
       if keyIs key "exercise_name" then boundText value else exercise_name r;
     exercise_type :=
       if keyIs key "exercise_type" then boundText value else exercise_type r;
     muscle := if keyIs key "muscle" then boundText value else muscle r;
     equipment :=
       if keyIs key "equipment" then boundText value else equipment r;
     difficulty :=
       if keyIs key "difficulty" then boundText value else difficulty r;
     instructions :=
       if keyIs key "instructions" then boundText value else instructions r;
     is_favorited :=
       if keyIs key "is_favorited"
       then Some (if truthy value then 1%Z else 0%Z)
       else is_favorited r;
     last_updated := last_updated r;
     created_timestamp := created_timestamp r |}.

(** The loop of [updateExercise] over [Object.entries(updates)]: the
    assignments kept, in order. *)
Definition keptFields (updates : list (jsstring * JsValue))
  : list (jsstring * JsValue) :=
  filter (fun kv => isAllowed (fst kv)) updates.

Definition setLastUpdated (now : timestamp) (r : Row) : Row :=
  {| id := id r;
     exercise_name := exercise_name r;
     exercise_type := exercise_type r;
     muscle := muscle r;
     equipment := equipment r;
     difficulty := difficulty r;
     instructions := instructions r;
     is_favorited := is_favorited r;
     last_updated := Some now;
     created_timestamp := created_timestamp r |}.

(** The whole [SET] clause: the kept assignments, then
    [last_updated = CURRENT_TIMESTAMP]. *)
Definition setUpdates (now : timestamp) (fields : list (jsstring * JsValue))
  (r : Row) : Row :=
  setLastUpdated now
    (fold_left (fun acc kv => assign (fst kv) (snd kv) acc) fields r).

(** [updateExercise]: [inl msg] is the thrown [Error(msg)]. *)
Definition updateExercise (now : timestamp) (key : Z)
  (updates : list (jsstring * JsValue)) (st : Store)
  : (jsstring + RunResult) * Store :=
  let fields := keptFields updates in
  if length fields =? 0
  then (inl (lit "No valid fields to update"), st)
  else let '(result, st') := updateWhereId (setUpdates now fields) key st in
       (inr result, st').

(** The argument of [createExercise]. *)
Record NewExercise := {
  new_name : jsstring;
  new_type : jsstring;
  new_muscle : jsstring;
  new_equipment : jsstring;
  new_difficulty : jsstring;
  new_instructions : jsstring;
  new_is_favorited : bool
}.

Definition maxId (rs : list Row) : Z :=
  fold_right (fun r m => Z.max (id r) m) 0%Z rs.

(** [createExercise]: the [INSERT]; the new [id] is one above the largest
    rowid ever used, [last_updated] takes its default [NULL] and
    [created_timestamp] its default [CURRENT_TIMESTAMP].  The first component
    is [this.lastID], the [id] of the object the method resolves to. *)
Definition createExercise (now : timestamp) (exercise : NewExercise)
  (st : Store) : Z * Store :=
  let newId := (Z.max (seq st) (maxId (rows st)) + 1)%Z in
  (newId,
   {| rows := rows st ++
        [{| id := newId;
            exercise_name := new_name exercise;
            exercise_type := new_type exercise;
            muscle := new_muscle exercise;
            equipment := new_equipment exercise;
            difficulty := new_difficulty exercise;
            instructions := new_instructions exercise;
            is_favorited := Some (if new_is_favorited exercise then 1 else 0)%Z;
            last_updated := None;
            created_timestamp := Some now |}];
      seq := newId |}).

End Database.

(** ** The request handlers of the exercise routes *)

Import Database.

(** The object the handlers answer with for one row: [transformed]. *)
Record Transformed := {
  t_id : Z;
  t_name : jsstring;
  t_type : jsstring;
  t_muscle : jsstring;
  t_equipment : jsstring;
  t_difficulty : jsstring;
  t_instructions : jsstring;
  t_is_favorited : bool
}.

(** [exercise.is_favorited === 1]. *)
Definition isFavorited (r : Row) : bool :=
  match is_favorited r with
  | Some 1%Z => true
  | _ => false
  end.

Definition transform (exercise : Row) : Transformed :=
  {| t_id := id exercise;
     t_name := exercise_name exercise;
     t_type := exercise_type exercise;
     t_muscle := muscle exercise;
     t_equipment := equipment exercise;
     t_difficulty := difficulty exercise;
     t_instructions := instructions exercise;
     t_is_favorited := isFavorited exercise |}.

(** The bodies of the exercise routes. *)
Inductive ExerciseBody :=
| ErrorBody (error : jsstring)
| MissingFieldsBody
| RecordBody (transformed : Transformed)
| CreatedBody (newId : Z) (exercise : NewExercise).

(** [app.patch('/api/exercises/:id/favorite')].  The route parameter is
    compared with the [INTEGER PRIMARY KEY] column; [key] is the integer it
    denotes.  [now] is the reading of the clock. *)
Definition patchFavorite (now : timestamp) (key : Z) (st : Store)
  : Response ExerciseBody * Store :=
  let '(result, st) := toggleFavorite now key st in
  if changes result =? 0
  then (res_status_json 404 (ErrorBody (lit "Exercise not found")), st)
  else
    match getExerciseById key st with
    | None =>
        (res_status_json 404
           (ErrorBody (lit "Exercise not found after toggle")), st)
    | Some exercise => (res_json (RecordBody (transform exercise)), st)
    end.

(** [app.put('/api/exercises/:id')]; an error thrown in the [try] block is
    answered with 500 and its message. *)
Definition putExercise (now : timestamp) (key : Z)
  (updates : list (jsstring * JsValue)) (st : Store)
  : Response ExerciseBody * Store :=
  match updateExercise now key updates st with
  | (inl message, st) => (res_status_json 500 (ErrorBody message), st)
  | (inr result, st) =>
      if changes result =? 0
      then (res_status_json 404 (ErrorBody (lit "Exercise not found")), st)
      else
        match getExerciseById key st with
        | None =>
            (res_status_json 500
               (ErrorBody
                  (lit "Cannot read properties of undefined (reading 'id')")),
             st)
        | Some updatedExercise =>
            (res_json (RecordBody (transform updatedExercise)), st)
        end
  end.

(** The body of a [POST]: a field is [None] when it is absent. *)
Record PostBody := {
  p_name : option jsstring;
  p_type : option jsstring;
  p_muscle : option jsstring;
  p_equipment : option jsstring;
  p_difficulty : option jsstring;
  p_instructions : option jsstring;
  p_is_favorited : option bool
}.

(** [!field] is false exactly for a present, non-empty string. *)
Definition present (field : option jsstring) : option jsstring :=
  match field with
  | Some (c :: s) => Some (c :: s)
  | _ => None
  end.

(** [app.post('/api/exercises')]. *)
Definition postExercise (now : timestamp) (b : PostBody) (st : Store)
  : Response ExerciseBody * Store :=
  match present (p_name b), present (p_type b), present (p_muscle b),
        present (p_equipment b), present (p_difficulty b),
        present (p_instructions b) with
  | Some name, Some type, Some muscle, Some equipment, Some difficulty,
    Some instructions =>
      if exerciseExists name st
      then (res_status_json 409
              (ErrorBody (lit "Exercise with this name already exists")), st)
      else
        let exercise :=
          {| new_name := name; new_type := type; new_muscle := muscle;
             new_equipment := equipment; new_difficulty := difficulty;
             new_instructions := instructions;
             new_is_favorited :=
               match p_is_favorited b with Some v => v | None => false end |} in
        let '(lastID, st) := createExercise now exercise st in
        (res_status_json 201 (CreatedBody lastID exercise), st)
  | _, _, _, _, _, _ => (res_status_json 400 MissingFieldsBody, st)
  end.

(** ** The documented behaviour, in the words of the documentation *)

Module Spec.

(** [a] is a substring of [b]. *)
Definition Substring (a b : jsstring) : Prop :=
  exists before after, b = before ++ a ++ after.

(** The containment match: either normalized name contains the other. *)
Definition Candidate (queryName : jsstring) (e : ImageCatalogEntry) : Prop :=
  Substring (normalizeName queryName) (normalizeName (name e))
  \/ Substring (normalizeName (name e)) (normalizeName queryName).

(** [e] is the first candidate of the catalog, in its order. *)
Definition FirstCandidate (q : jsstring) (db : Catalog) (e : ImageCatalogEntry)
  : Prop :=
  exists before after,
    db = before ++ e :: after /\ Candidate q e
    /\ Forall (fun x => ~ Candidate q x) before.

(** The dataset a lookup works with: the one already loaded, otherwise what
    the load attempted by the lookup brings ([None] when it fails). *)
Definition availableCatalog (fetched exerciseDatabase : option Catalog)
  : option Catalog :=
  match exerciseDatabase with
  | Some db => Some db
  | None => fetched
  end.

(** All letters are lower-cased. *)
Definition lowerCased (s : jsstring) : jsstring := map toLowerCaseChar s.

(** Every hyphen and underscore is replaced with a single space. *)
Definition separatorsToSpaces (s : jsstring) : jsstring :=
  flat_map (fun c => if isHyphenOrUnderscore c then [space] else [c]) s.

(** The maximal runs of [s]: the pieces of [s], in order, each made of
    whitespace only or of other characters only, as long as possible. *)
Fixpoint runs (s : jsstring) : list jsstring :=
  match s with
  | [] => []
  | c :: r =>
      match runs r with
      | (d :: run) :: rest =>
          if Bool.eqb (isWhiteSpace c) (isWhiteSpace d)
          then (c :: d :: run) :: rest
          else [c] :: (d :: run) :: rest
      | _ => [[c]]
      end
  end.

Definition isWhiteSpaceRun (run : jsstring) : bool :=
  match run with
  | c :: _ => isWhiteSpace c
  | [] => false
  end.

(** Every maximal run of whitespace is collapsed to exactly one space. *)
Definition collapseWhiteSpace (s : jsstring) : jsstring :=
  concat (map (fun run => if isWhiteSpaceRun run then [space] else run)
              (runs s)).

(** Leading whitespace is removed: the first run, when it is whitespace. *)
Definition removeLeading (s : jsstring) : jsstring :=
  match runs s with
  | run :: rest => if isWhiteSpaceRun run then concat rest else s
  | [] => s
  end.

(** Trailing whitespace is removed: the leading whitespace of the string
    read backwards. *)
Definition removeTrailing (s : jsstring) : jsstring :=
  rev (removeLeading (rev s)).

(** The four steps, in the documented order. *)
Definition normalize (s : jsstring) : jsstring :=
  removeTrailing
    (removeLeading (collapseWhiteSpace (separatorsToSpaces (lowerCased s)))).

(** The steps with the collapse before the replacement of separators. *)
Definition normalizeCollapseFirst (s : jsstring) : jsstring :=
  removeTrailing
    (removeLeading (separatorsToSpaces (collapseWhiteSpace (lowerCased s)))).

(** The fixed remote base URL of the image dataset, [<base>]. *)
Definition baseUrl : jsstring :=
  lit "https://raw.githubusercontent.com/yuhonas/free-exercise-db/main/exercises".

(** [<base>/<fragment>]. *)
Definition expand (fragment : jsstring) : jsstring :=
  baseUrl ++ lit "/" ++ fragment.

(** No two records bear the same name. *)
Definition UniqueNames (st : Store) : Prop :=
  NoDup (map exercise_name (rows st)).

End Spec.

(** ** Auxiliary definitions for the proofs *)

(** The longest prefix of [s] whose characters are whitespace ([b = true])
    or are not ([b = false]), and what follows it. *)
Fixpoint takeClass (b : bool) (s : jsstring) : jsstring :=
  match s with
  | c :: r => if Bool.eqb (isWhiteSpace c) b then c :: takeClass b r else []
  | [] => []
  end.

Fixpoint dropClass (b : bool) (s : jsstring) : jsstring :=
  match s with
  | c :: r => if Bool.eqb (isWhiteSpace c) b then dropClass b r else s
  | [] => []
  end.

(** [s] is empty or begins with a character that is not whitespace. *)
Definition headNotWhiteSpace (s : jsstring) : bool :=
  match s with
  | c :: _ => negb (isWhiteSpace c)
  | [] => true
  end.

(** Every whitespace character of [s] is a space, and is followed by the
    end of [s] or by a character that is not whitespace. *)
Fixpoint collapsed (s : jsstring) : bool :=
  match s with
  | [] => true
  | c :: r =>
      (if isWhiteSpace c then eqbChar c space && headNotWhiteSpace r else true)
      && collapsed r
  end.

(** Neighbouring runs are of different kinds. *)
Fixpoint alternating (rs : list jsstring) : bool :=
  match rs with
  | a :: (b :: _) as rest =>
      negb (Bool.eqb (Spec.isWhiteSpaceRun a) (Spec.isWhiteSpaceRun b))
      && alternating rest
  | _ => true
  end.

(** A character that [toLowerCase] and the replacement of separators leave
    as it is. *)
Definition plain (c : ascii) : Prop :=
  toLowerCaseChar c = c /\ isHyphenOrUnderscore c = false.

(** A whitespace character. *)
Definition blank (c : ascii) : Prop := isWhiteSpace c = true.

(** ** Sample data *)

(** A dataset of two entries. *)
Definition curlCatalog : Catalog :=
  [ {| name := lit "Bench Press"; images := [lit "Bench_Press/0.jpg"] |};
    {| name := lit "Curl"; images := [lit "Curl/0.jpg"; lit "Curl/1.jpg"] |} ].

(** A store of two records. *)
Definition squat : Row :=
  {| id := 1%Z; exercise_name := lit "Squat"; exercise_type := lit "strength";
     muscle := lit "quadriceps"; equipment := lit "barbell";
     difficulty := lit "beginner"; instructions := lit "Bend the knees.";
     is_favorited := Some 0%Z; last_updated := None;
     created_timestamp := Some 100%Z |}.

Definition lunge : Row :=
  {| id := 2%Z; exercise_name := lit "Lunge"; exercise_type := lit "strength";
     muscle := lit "quadriceps"; equipment := lit "body_only";
     difficulty := lit "beginner"; instructions := lit "Step forward.";
     is_favorited := Some 1%Z; last_updated := None;
     created_timestamp := Some 101%Z |}.

Definition twoExercises : Store := {| rows := [squat; lunge]; seq := 2%Z |}.

From Stdlib Require Import Sorted Permutation.

(** ** The other methods of [Database] *)

Module Queries.

(** [DELETE FROM Exercises WHERE id = ?]; the counter of [AUTOINCREMENT]
    is not touched by a deletion. *)
Definition deleteExercise (key : Z) (st : Store) : RunResult * Store :=
  ({| changes := length (filter (fun r => id r =? key)%Z (rows st)) |},
   {| rows := filter (fun r => negb (id r =? key)%Z) (rows st);
      seq := seq st |}).

(** The comparison of two characters by [LIKE]: the letters a..z and A..Z
    are compared without regard to case, every other character as it is. *)
Definition likeFold (c : ascii) : ascii :=
  if between 65 90 (code c) then ascii_of_nat (code c + 32) else c.

Definition isPercent (c : ascii) : bool := code c =? 37.

(** [s LIKE pattern], without [ESCAPE]: [%] stands for any sequence of
    characters, [_] for any one character. *)
Fixpoint like (pattern s : jsstring) : bool :=
  match pattern with
  | [] => match s with [] => true | _ :: _ => false end
  | p :: pattern' =>
      if isPercent p
      then (fix anySuffix (s : jsstring) : bool :=
              like pattern' s
              || match s with
                 | [] => false
                 | _ :: s' => anySuffix s'
                 end) s
      else match s with
           | [] => false
           | c :: s' =>
               ((code p =? 95) || eqbChar (likeFold p) (likeFold c))
               && like pattern' s'
           end
  end.

(** The bound pattern [`%${term}%`]. *)
Definition containsPattern (term : jsstring) : jsstring :=
  lit "%" ++ term ++ lit "%".

(** [col = ?] on a column of type [TEXT] (collation [BINARY]). *)
Definition textEq (a b : jsstring) : bool :=
  if list_eq_dec ascii_dec a b then true else false.

(** [is_favorited = ?] with the integer bound for a boolean; [NULL] is equal
    to nothing. *)
Definition favoritedIs (b : bool) (r : Row) : bool :=
  match is_favorited r with
  | Some v => (v =? (if b then 1 else 0))%Z
  | None => false
  end.

(** A filter value that is truthy: a present, non-empty string. *)
Definition given (field : option jsstring) : option jsstring :=
  match field with
  | Some (c :: s) => Some (c :: s)
  | _ => None
  end.

(** One optional condition of a [WHERE] clause. *)
Definition whenGiven {A : Type} (field : option A) (cond : A -> bool) : bool :=
  match field with
  | Some v => cond v
  | None => true
  end.

(** The [filters] argument of [getExercises] and [getExerciseCount]; an
    absent property is [None]. *)
Record Filters := {
  f_name : option jsstring;
  f_muscle : option jsstring;
  f_type : option jsstring;
  f_difficulty : option jsstring;
  f_is_favorited : option bool;
  f_limit : option nat;
  f_offset : option nat
}.

Definition noFilters : Filters :=
  {| f_name := None; f_muscle := None; f_type := None; f_difficulty := None;
     f_is_favorited := None; f_limit := None; f_offset := None |}.

(** A number that is truthy: present and not 0. *)
Definition positive (n : option nat) : option nat :=
  match n with
  | Some (S k) => Some (S k)
  | _ => None
  end.

(** The [WHERE] clause [getExercises] builds. *)
Definition whereExercises (filters : Filters) (r : Row) : bool :=
  whenGiven (given (f_name filters))
            (fun nm => like (containsPattern nm) (exercise_name r))
  && whenGiven (given (f_muscle filters)) (fun m => textEq (muscle r) m)
  && whenGiven (given (f_type filters)) (fun t => textEq (exercise_type r) t)
  && whenGiven (given (f_difficulty filters))
               (fun d => textEq (difficulty r) d)
  && whenGiven (f_is_favorited filters) (fun b => favoritedIs b r).

(** The [WHERE] clause [getExerciseCount] builds: it reads [name], [muscle]
    and [is_favorited] only. *)
Definition whereCount (filters : Filters) (r : Row) : bool :=
  whenGiven (given (f_name filters))
            (fun nm => like (containsPattern nm) (exercise_name r))
  && whenGiven (given (f_muscle filters)) (fun m => textEq (muscle r) m)
  && whenGiven (f_is_favorited filters) (fun b => favoritedIs b r).

(** [SELECT COUNT( * ) ...], then [row.count]. *)
Definition getExerciseCount (filters : Filters) (st : Store) : nat :=
  length (filter (whereCount filters) (rows st)).

(** The order of [ORDER BY exercise_name ASC] under the collation
    [BINARY]: the strings compared character by character. *)
Fixpoint nameLeb (a b : jsstring) : bool :=
  match a, b with
  | [], _ => true
  | _ :: _, [] => false
  | x :: a', y :: b' =>
      (code x <? code y) || ((code x =? code y) && nameLeb a' b')
  end.

Section OrderBy.

(** What the engine does for [ORDER BY exercise_name ASC].  The order of
    rows of equal name is the engine's choice, so the sort is a parameter of
    the queries that use it. *)
Variable orderByName : list Row -> list Row.

(** [SELECT * FROM Exercises WHERE is_favorited = 1 ORDER BY ...]. *)
Definition getFavorites (st : Store) : list Row :=
  orderByName (filter (favoritedIs true) (rows st)).


(** [getExercises(filters)]: [LIMIT] and [OFFSET] are appended only for a
    truthy value, and the statement with [OFFSET] but no [LIMIT] is not
    SQL: the call is rejected with the engine's syntax error ([None]). *)
Definition getExercises (filters : Filters) (st : Store) : option (list Row) :=
  let selected := orderByName (filter (whereExercises filters) (rows st)) in
  match positive (f_limit filters), positive (f_offset filters) with
  | None, None => Some selected
  | Some limit, None => Some (firstn limit selected)
  | Some limit, Some offset => Some (firstn limit (skipn offset selected))
  | None, Some _ => None
  end.

End OrderBy.

End Queries.

(** ** The other routes of [server.js] *)

(** An exercise as the remote exercise API returns it; a property that is
    absent is [None]. *)
Record ApiExercise := {
  api_name : jsstring;
  api_type : option jsstring;
  api_muscle : option jsstring;
  api_equipment : option jsstring;
  api_difficulty : option jsstring;
  api_instructions : option jsstring
}.

(** The outcome of one [axios.get] on the exercise API: the message of the
    error it is rejected with, or the data of the response. *)
Definition ApiOutcome : Type := jsstring + list ApiExercise.

(** The bodies of the routes that answer with a list. *)
Inductive ListBody :=
| ListError (error message : jsstring)
| ListOf (exercises : list Transformed)
| ListRaw (exercises : list ApiExercise).

(** [app.get('/api/exercises/:id')]. *)
Definition routeGetExercise (key : Z) (st : Store) : Response ExerciseBody :=
  match getExerciseById key st with
  | None => res_status_json 404 (ErrorBody (lit "Exercise not found"))
  | Some exercise => res_json (RecordBody (transform exercise))
  end.

Inductive DeleteBody :=
| DeleteError (error : jsstring)
| DeleteMessage (message : jsstring).

(** [app.delete('/api/exercises/:id')]. *)
Definition routeDeleteExercise (key : Z) (st : Store)
  : Response DeleteBody * Store :=
  let '(result, st) := Queries.deleteExercise key st in
  if changes result =? 0
  then (res_status_json 404 (DeleteError (lit "Exercise not found")), st)
  else (res_json (DeleteMessage (lit "Exercise deleted successfully")), st).

(** The object the favorites route builds for a row: [is_favorited] is the
    constant [true]. *)
Definition transformFavorite (ex : Row) : Transformed :=
  {| t_id := id ex;
     t_name := exercise_name ex;
     t_type := exercise_type ex;
     t_muscle := muscle ex;
     t_equipment := equipment ex;
     t_difficulty := difficulty ex;
     t_instructions := instructions ex;
     t_is_favorited := true |}.

Definition muscleGroups : list jsstring :=
  [lit "biceps"; lit "triceps"; lit "chest"; lit "back"; lit "shoulders";
   lit "legs"].

Definition withMuscle (muscle : jsstring) (limit : option nat) : Queries.Filters :=
  {| Queries.f_name := None; Queries.f_muscle := Some muscle;
     Queries.f_type := None; Queries.f_difficulty := None;
     Queries.f_is_favorited := None; Queries.f_limit := limit;
     Queries.f_offset := None |}.

Section Routes.

Variable orderByName : list Row -> list Row.

(** [app.get('/api/exercises/favorites')]. *)
Definition routeFavorites (st : Store) : Response ListBody :=
  res_json (ListOf (map transformFavorite (Queries.getFavorites orderByName st))).


(** The loop of the list route over the muscle groups: [None] when a call
    of [getExercises] is rejected. *)
Fixpoint collectGroups (groups : list jsstring) (allExercises : list Row)
  (st : Store) : option (list Row) :=
  match groups with
  | [] => Some allExercises
  | muscle :: groups' =>
      match Queries.getExercises orderByName (withMuscle muscle (Some 10)) st with
      | Some exercises => collectGroups groups' (allExercises ++ exercises) st
      | None => None
      end
  end.

(** The loop of the fallback over the muscle groups: the first rejected
    request ends it with its message. *)
Fixpoint collectFallback (api : jsstring -> ApiOutcome) (groups : list jsstring)
  (allExercises : list ApiExercise) : jsstring + list ApiExercise :=
  match groups with
  | [] => inr allExercises
  | muscle :: groups' =>
      match api muscle with
      | inr data => collectFallback api groups' (allExercises ++ data)
      | inl message => inl message
      end
  end.

(** [app.get('/api/exercises')]; [api muscle] is the outcome of the request
    the fallback makes for a muscle group. *)
Definition routeList (api : jsstring -> ApiOutcome) (st : Store)
  : Response ListBody :=
  match collectGroups muscleGroups [] st with
  | Some allExercises => res_json (ListOf (map transform allExercises))
  | None =>
      match collectFallback api muscleGroups [] with
      | inr allExercises => res_json (ListRaw allExercises)
      | inl message =>
          res_status_json 500
            (ListError
               (lit "Failed to fetch exercises from both database and API")
               message)
      end
  end.

End Routes.

(** The body of the statistics route; [byMuscle] lists the properties of
    the object [stats] in the order they are set. *)
Record StatsBody := {
  total : nat;
  favorites : nat;
  byMuscle : list (jsstring * nat)
}.

Definition statsMuscles : list jsstring :=
  [lit "biceps"; lit "triceps"; lit "chest"; lit "back"; lit "shoulders";
   lit "legs"; lit "abdominals"; lit "calves"; lit "glutes";
   lit "hamstrings"; lit "quadriceps"].

Definition favoritedOnly : Queries.Filters :=
  {| Queries.f_name := None; Queries.f_muscle := None; Queries.f_type := None;
     Queries.f_difficulty := None; Queries.f_is_favorited := Some true;
     Queries.f_limit := None; Queries.f_offset := None |}.

(** The loop of the statistics route: a muscle is entered with its count
    when the count is above 0.  The muscles are distinct, so every
    assignment [stats[muscle] = count] adds a property. *)
Definition countMuscles (muscles : list jsstring) (st : Store)
  : list (jsstring * nat) :=
  fold_left
    (fun stats muscle =>
       let count := Queries.getExerciseCount (withMuscle muscle None) st in
       if 0 <? count then stats ++ [(muscle, count)] else stats)
    muscles [].

(** [app.get('/api/db/stats')]. *)
Definition routeStats (st : Store) : Response StatsBody :=
  let total := Queries.getExerciseCount Queries.noFilters st in
  let favoriteCount := Queries.getExerciseCount favoritedOnly st in
  let stats := countMuscles statsMuscles st in
  res_json {| total := total; favorites := favoriteCount; byMuscle := stats |}.

(** ** The population script, [populate.js] *)

Module Populate.

Definition MUSCLE_GROUPS : list jsstring :=
  [lit "abdominals"; lit "abductors"; lit "adductors"; lit "biceps";
   lit "calves"; lit "chest"; lit "forearms"; lit "glutes"; lit "hamstrings";
   lit "lats"; lit "lower_back"; lit "middle_back"; lit "neck";
   lit "quadriceps"; lit "traps"; lit "triceps"; lit "shoulders"].

Definition EXERCISE_TYPES : list jsstring :=
  [lit "cardio"; lit "olympic_weightlifting"; lit "plyometrics";
   lit "powerlifting"; lit "strength"; lit "stretching"; lit "strongman"].

Definition difficulties : list jsstring :=
  [lit "beginner"; lit "intermediate"; lit "expert"].

(** The [params] of one request. *)
Inductive Params :=
| ByMuscle (muscle difficulty : jsstring)
| ByType (type difficulty : jsstring).

(** The requests of [fetchExercisesFromAPI], in the order they are made. *)
Definition requests : list Params :=
  flat_map (fun muscle => map (ByMuscle muscle) difficulties) MUSCLE_GROUPS
  ++ flat_map (fun type => map (ByType type) difficulties) EXERCISE_TYPES.

(** [allExercises.has(name)] on the map, held as the list of its values in
    insertion order. *)
Definition has (allExercises : list ApiExercise) (nm : jsstring) : bool :=
  existsb (fun e => Queries.textEq (api_name e) nm) allExercises.

(** The callback of [response.data.forEach]. *)
Definition addExercise (allExercises : list ApiExercise) (exercise : ApiExercise)
  : list ApiExercise :=
  if has allExercises (api_name exercise)
  then allExercises
  else allExercises ++ [exercise].

(** One request: a rejected one is caught and leaves the map as it is. *)
Definition addResponse (api : Params -> ApiOutcome)
  (allExercises : list ApiExercise) (request : Params) : list ApiExercise :=
  match api request with
  | inr data => fold_left addExercise data allExercises
  | inl _ => allExercises
  end.

(** [fetchExercisesFromAPI]: [Array.from(allExercises.values())]. *)
Definition fetchExercisesFromAPI (api : Params -> ApiOutcome)
  : list ApiExercise :=
  fold_left (addResponse api) requests [].







End Populate.

(** ** The pagination of the page, [app.js] *)

Module Frontend.

Definition ITEMS_PER_PAGE : Z := 10.

(** The globals [allExercises] and [currentPage]. *)
Record Page := {
  allExercises : list Transformed;
  currentPage : Z
}.

(** An index of [Array.prototype.slice] brought into the array: a negative
    one counts from the end. *)
Definition relativeIndex (len i : Z) : Z :=
  if (i <? 0)%Z then Z.max (len + i) 0 else Z.min i len.

(** [array.slice(start, end)]. *)
Definition slice {A : Type} (array : list A) (start end_ : Z) : list A :=
  let len := Z.of_nat (length array) in
  let k := relativeIndex len start in
  let final := relativeIndex len end_ in
  firstn (Z.to_nat (Z.max (final - k) 0)) (skipn (Z.to_nat k) array).

(** [Math.ceil(allExercises.length / ITEMS_PER_PAGE)]. *)
Definition totalPages (p : Page) : Z :=
  (Z.of_nat (length (allExercises p)) + ITEMS_PER_PAGE - 1) / ITEMS_PER_PAGE.

(** The exercises [displayCurrentPage] hands to [displayExercises]. *)
Definition pageExercises (p : Page) : list Transformed :=
  let startIndex := ((currentPage p - 1) * ITEMS_PER_PAGE)%Z in
  let endIndex := (startIndex + ITEMS_PER_PAGE)%Z in
  slice (allExercises p) startIndex endIndex.

Definition nextPage (p : Page) : Page :=
  if (currentPage p <? totalPages p)%Z
  then {| allExercises := allExercises p; currentPage := currentPage p + 1 |}
  else p.

Definition previousPage (p : Page) : Page :=
  if (1 <? currentPage p)%Z
  then {| allExercises := allExercises p; currentPage := currentPage p - 1 |}
  else p.

(** What [updatePagination] sets: whether the two buttons are disabled and
    whether the bar is shown. *)
Definition prevDisabled (p : Page) : bool := (currentPage p =? 1)%Z.

Definition nextDisabled (p : Page) : bool := (totalPages p <=? currentPage p)%Z.

Definition paginationShown (p : Page) : bool := (1 <? totalPages p)%Z.

(** [fetchExercises] and [performSearch] on a successful answer: the list
    is replaced and the page is the first again. *)
Definition loadList (exercises : list Transformed) : Page :=
  {| allExercises := exercises; currentPage := 1 |}.

(** [fetchFavorites] on a successful answer: the list is replaced, the page
    is kept. *)
Definition loadFavorites (favorites : list Transformed) (p : Page) : Page :=
  {| allExercises := favorites; currentPage := currentPage p |}.

(** The body [saveExercise] sends for the form: the six values under the
    keys [name], [type], [muscle], [equipment], [difficulty] and
    [instructions]. *)
Definition formBody (name type muscle equipment difficulty instructions : jsstring)
  : list (jsstring * JsValue) :=
  [(lit "name", JsStr name); (lit "type", JsStr type);
   (lit "muscle", JsStr muscle); (lit "equipment", JsStr equipment);
   (lit "difficulty", JsStr difficulty);
   (lit "instructions", JsStr instructions)].

End Frontend.

(** ** Auxiliary definitions for the further proofs *)

(** A call of one of the methods of [Database] that write. *)
Inductive Mutation :=
| Create (now : timestamp) (exercise : NewExercise)
| Update (now : timestamp) (key : Z) (updates : list (jsstring * JsValue))
| Toggle (now : timestamp) (key : Z)
| Delete (key : Z).

Definition mutate (m : Mutation) (st : Store) : Store :=
  match m with
  | Create now exercise => snd (createExercise now exercise st)
  | Update now key updates => snd (updateExercise now key updates st)
  | Toggle now key => snd (toggleFavorite now key st)
  | Delete key => snd (Queries.deleteExercise key st)
  end.


(** The ids of the table are distinct ([PRIMARY KEY]). *)
Definition UniqueIds (st : Store) : Prop := NoDup (map id (rows st)).

(** Every [is_favorited] is 0 or 1. *)
Definition FlagsBoolean (st : Store) : Prop :=
  Forall (fun r => is_favorited r = Some 0%Z \/ is_favorited r = Some 1%Z)
         (rows st).

(** The rows in the order of their names. *)
Definition SortedByName (l : list Row) : Prop :=
  StronglySorted
    (fun a b => Queries.nameLeb (exercise_name a) (exercise_name b) = true) l.

(** A sort by insertion, one way for the engine to order the rows. *)
Fixpoint insertByName (r : Row) (l : list Row) : list Row :=
  match l with
  | [] => [r]
  | a :: l' =>
      if Queries.nameLeb (exercise_name r) (exercise_name a)
      then r :: l
      else a :: insertByName r l'
  end.

Definition sortByName (l : list Row) : list Row :=
  fold_right insertByName [] l.

(** The pages 1 to [n] of a list. *)
Definition pagesUpTo (l : list Transformed) (n : nat) : list (list Transformed) :=
  map (fun k => Frontend.pageExercises
                  {| Frontend.allExercises := l;
                     Frontend.currentPage := Z.of_nat k |})
      (List.seq 1 n).






(** The number of rows of a muscle, and whether the muscle of a row is one
    of those the statistics route asks for. *)
Definition rowsOfMuscle (m : jsstring) (st : Store) : nat :=
  length (filter (fun r => Queries.textEq (muscle r) m) (rows st)).

Definition inStatsMuscles (r : Row) : bool :=
  existsb (Queries.textEq (muscle r)) statsMuscles.


(** The page number is one of the pages of the list (page 1 when the list
    is empty). *)
Definition OnAPage (p : Frontend.Page) : Prop :=
  (1 <= Frontend.currentPage p <= Z.max 1 (Frontend.totalPages p))%Z.




(** * Proofs *)

(** ** Characters *)

Ltac each_char c :=
  destruct c as [[] [] [] [] [] [] [] []]; try reflexivity; try discriminate.

Lemma toLowerCaseChar_idem c :
  toLowerCaseChar (toLowerCaseChar c) = toLowerCaseChar c.
Proof. each_char c. Qed.

Lemma toLowerCaseChar_space_fixed c :
  (if isHyphenOrUnderscore (toLowerCaseChar c) then space else toLowerCaseChar c)
  = toLowerCaseChar
      (if isHyphenOrUnderscore (toLowerCaseChar c) then space else toLowerCaseChar c).
Proof. each_char c. Qed.

Lemma separator_gone c :
  isHyphenOrUnderscore (if isHyphenOrUnderscore c then space else c) = false.
Proof. each_char c. Qed.

Lemma eqbChar_true a b : eqbChar a b = true <-> a = b.
Proof. apply Ascii.eqb_eq. Qed.

Lemma space_isWhiteSpace : isWhiteSpace space = true.
Proof. reflexivity. Qed.

(** ** Induction on the length of a string *)

Lemma length_ind (P : list ascii -> Prop) :
  (forall s, (forall t, length t < length s -> P t) -> P s) ->
  forall s, P s.
Proof.
  intros step s.
  remember (length s) as n eqn:Hn.
  revert s Hn.
  induction n as [n IH] using lt_wf_ind.
  intros s ->. apply step. intros t Ht. exact (IH _ Ht t eq_refl).
Qed.

(** ** Skipping whitespace and trimming *)

Lemma skipWhiteSpace_dropClass s : skipWhiteSpace s = dropClass true s.
Proof.
  induction s as [|c r IH]; simpl; [reflexivity|].
  destruct (isWhiteSpace c); simpl; [exact IH | reflexivity].
Qed.

Lemma dropClass_length b s : length (dropClass b s) <= length s.
Proof.
  induction s as [|c r IH]; simpl; [lia|].
  destruct (Bool.eqb (isWhiteSpace c) b); simpl; lia.
Qed.

Lemma skipWhiteSpace_length s : length (skipWhiteSpace s) <= length s.
Proof. rewrite skipWhiteSpace_dropClass. apply dropClass_length. Qed.

Lemma take_drop_class b s : takeClass b s ++ dropClass b s = s.
Proof.
  induction s as [|c r IH]; simpl; [reflexivity|].
  destruct (Bool.eqb (isWhiteSpace c) b); simpl; [now rewrite IH | reflexivity].
Qed.

Lemma skipWhiteSpace_head s : headNotWhiteSpace (skipWhiteSpace s) = true.
Proof.
  induction s as [|c r IH]; simpl; [reflexivity|].
  destruct (isWhiteSpace c) eqn:E; [exact IH | simpl; now rewrite E].
Qed.

Lemma skipWhiteSpace_fixed s :
  headNotWhiteSpace s = true -> skipWhiteSpace s = s.
Proof.
  destruct s as [|c r]; simpl; [reflexivity|].
  destruct (isWhiteSpace c); [discriminate | reflexivity].
Qed.

Lemma skipWhiteSpace_idem s : skipWhiteSpace (skipWhiteSpace s) = skipWhiteSpace s.
Proof. apply skipWhiteSpace_fixed, skipWhiteSpace_head. Qed.

Lemma skipWhiteSpace_snoc a c :
  skipWhiteSpace (a ++ [c]) =
  match skipWhiteSpace a with
  | [] => if isWhiteSpace c then [] else [c]
  | t => t ++ [c]
  end.
Proof.
  induction a as [|d a IH]; simpl; [reflexivity|].
  destruct (isWhiteSpace d); [exact IH | reflexivity].
Qed.

(** [trimEnd] read from the left. *)
Lemma trimEnd_cons c r :
  trimEnd (c :: r) =
  match trimEnd r with
  | [] => if isWhiteSpace c then [] else [c]
  | t => c :: t
  end.
Proof.
  unfold trimEnd. simpl rev. rewrite skipWhiteSpace_snoc.
  destruct (skipWhiteSpace (rev r)) as [|d t] eqn:E.
  - simpl. now destruct (isWhiteSpace c).
  - rewrite rev_app_distr.
    remember (rev (d :: t)) as u eqn:E'.
    destruct u as [|x y]; [|reflexivity].
    apply (f_equal (@length _)) in E'. rewrite length_rev in E'. discriminate.
Qed.

Lemma trimEnd_nil : trimEnd [] = [].
Proof. reflexivity. Qed.

(** What [trimEnd] keeps begins as the string does. *)
Lemma trimEnd_head s :
  headNotWhiteSpace s = true -> headNotWhiteSpace (trimEnd s) = true.
Proof.
  destruct s as [|c r]; [reflexivity|].
  rewrite trimEnd_cons. intros H. simpl in H.
  destruct (trimEnd r) as [|x y]; [|exact H].
  destruct (isWhiteSpace c) eqn:E; [discriminate H|].
  simpl. now rewrite E.
Qed.

Lemma trimEnd_idem s : trimEnd (trimEnd s) = trimEnd s.
Proof.
  unfold trimEnd. now rewrite rev_involutive, skipWhiteSpace_idem.
Qed.

Lemma trim_fixed s :
  headNotWhiteSpace s = true -> trim (trimEnd s) = trimEnd s.
Proof.
  intros H. unfold trim, trimStart.
  rewrite (skipWhiteSpace_fixed _ (trimEnd_head _ H)). apply trimEnd_idem.
Qed.

Lemma trim_idem s : trim (trim s) = trim s.
Proof. unfold trim at 2 3. apply trim_fixed, skipWhiteSpace_head. Qed.

(** ** Maximal runs *)

Lemma runs_cons c r :
  Spec.runs (c :: r) =
  (c :: takeClass (isWhiteSpace c) r) :: Spec.runs (dropClass (isWhiteSpace c) r).
Proof.
  revert c. induction r as [|d r IH]; intros c; [reflexivity|].
  change (Spec.runs (c :: d :: r)) with
    (match Spec.runs (d :: r) with
     | (d' :: run) :: rest =>
         if Bool.eqb (isWhiteSpace c) (isWhiteSpace d')
         then (c :: d' :: run) :: rest
         else [c] :: (d' :: run) :: rest
     | _ => [[c]]
     end).
  rewrite (IH d). simpl takeClass. simpl dropClass.
  destruct (isWhiteSpace c) eqn:Ec, (isWhiteSpace d) eqn:Ed; cbn [Bool.eqb];
    try reflexivity; now rewrite (IH d), Ed.
Qed.

(** The runs of a string are a division of it. *)
Lemma concat_runs s : concat (Spec.runs s) = s.
Proof.
  induction s as [s IH] using length_ind.
  destruct s as [|c r]; [reflexivity|].
  rewrite runs_cons. simpl concat. rewrite IH.
  - simpl. now rewrite take_drop_class.
  - simpl. pose proof (dropClass_length (isWhiteSpace c) r). lia.
Qed.

Lemma takeClass_class b r : Forall (fun c => isWhiteSpace c = b) (takeClass b r).
Proof.
  induction r as [|c r IH]; simpl; [constructor|].
  destruct (Bool.eqb (isWhiteSpace c) b) eqn:E; constructor; trivial.
  now apply Bool.eqb_prop.
Qed.

Lemma dropClass_head b r :
  match dropClass b r with
  | d :: _ => isWhiteSpace d = negb b
  | [] => True
  end.
Proof.
  induction r as [|c r IH]; simpl; trivial.
  destruct (Bool.eqb (isWhiteSpace c) b) eqn:E; trivial.
  now destruct (isWhiteSpace c), b.
Qed.

(** Every run is non-empty and of one kind. *)
Lemma runs_uniform s :
  Forall (fun run =>
            exists c rest,
              run = c :: rest
              /\ Forall (fun d => isWhiteSpace d = isWhiteSpace c) rest)
         (Spec.runs s).
Proof.
  induction s as [s IH] using length_ind.
  destruct s as [|c r]; [constructor|].
  rewrite runs_cons. constructor.
  - exists c, (takeClass (isWhiteSpace c) r). split; trivial.
    apply takeClass_class.
  - apply IH. simpl. pose proof (dropClass_length (isWhiteSpace c) r). lia.
Qed.

Lemma alternating_cons a b rest :
  alternating (a :: b :: rest) =
  negb (Bool.eqb (Spec.isWhiteSpaceRun a) (Spec.isWhiteSpaceRun b))
  && alternating (b :: rest).
Proof. reflexivity. Qed.

(** The runs are maximal: a run never continues into the next one. *)
Lemma runs_alternating s : alternating (Spec.runs s) = true.
Proof.
  induction s as [s IH] using length_ind.
  destruct s as [|c r]; [reflexivity|].
  rewrite runs_cons.
  pose proof (dropClass_head (isWhiteSpace c) r) as Hd.
  pose proof (dropClass_length (isWhiteSpace c) r) as Hl.
  assert (IH' := IH (dropClass (isWhiteSpace c) r)).
  destruct (dropClass (isWhiteSpace c) r) as [|d r']; [reflexivity|].
  rewrite runs_cons in IH' |- *. rewrite alternating_cons.
  apply andb_true_iff. split.
  - simpl. rewrite Hd. now destruct (isWhiteSpace c).
  - apply IH'. simpl in *. lia.
Qed.

Lemma collapseWhiteSpace_cons c r :
  Spec.collapseWhiteSpace (c :: r) =
  if isWhiteSpace c
  then space :: Spec.collapseWhiteSpace (skipWhiteSpace r)
  else c :: Spec.collapseWhiteSpace r.
Proof.
  unfold Spec.collapseWhiteSpace at 1. rewrite runs_cons. simpl map. simpl concat.
  destruct (isWhiteSpace c) eqn:E.
  - now rewrite skipWhiteSpace_dropClass.
  - simpl. f_equal. destruct r as [|d r]; [reflexivity|].
    simpl. destruct (isWhiteSpace d) eqn:E'; simpl.
    + reflexivity.
    + unfold Spec.collapseWhiteSpace. rewrite runs_cons. simpl.
      now rewrite E'.
Qed.

Lemma replaceWhiteSpaceRuns_cons c r :
  replaceWhiteSpaceRuns (c :: r) =
  if isWhiteSpace c
  then space :: replaceWhiteSpaceRuns (skipWhiteSpace r)
  else c :: replaceWhiteSpaceRuns r.
Proof. reflexivity. Qed.

Lemma replaceWhiteSpaceRuns_collapse s :
  replaceWhiteSpaceRuns s = Spec.collapseWhiteSpace s.
Proof.
  induction s as [s IH] using length_ind.
  destruct s as [|c r]; [reflexivity|].
  rewrite replaceWhiteSpaceRuns_cons, collapseWhiteSpace_cons.
  destruct (isWhiteSpace c); f_equal; apply IH; simpl.
  - pose proof (skipWhiteSpace_length r). lia.
  - lia.
Qed.

Lemma replaceHyphenUnderscore_spec s :
  replaceHyphenUnderscore s = Spec.separatorsToSpaces s.
Proof.
  unfold replaceHyphenUnderscore, Spec.separatorsToSpaces.
  induction s as [|c r IH]; simpl; [reflexivity|].
  rewrite IH. now destruct (isHyphenOrUnderscore c).
Qed.

Lemma trimStart_removeLeading s : trimStart s = Spec.removeLeading s.
Proof.
  unfold trimStart, Spec.removeLeading.
  destruct s as [|c r]; [reflexivity|].
  rewrite runs_cons. simpl.
  destruct (isWhiteSpace c); [|reflexivity].
  now rewrite concat_runs, skipWhiteSpace_dropClass.
Qed.

Lemma trimEnd_removeTrailing s : trimEnd s = Spec.removeTrailing s.
Proof.
  unfold trimEnd, Spec.removeTrailing.
  now rewrite <- trimStart_removeLeading.
Qed.

Lemma normalizeName_refines s : normalizeName s = Spec.normalize s.
Proof.
  unfold normalizeName, Spec.normalize, trim.
  rewrite trimEnd_removeTrailing, trimStart_removeLeading.
  now rewrite replaceWhiteSpaceRuns_collapse, replaceHyphenUnderscore_spec.
Qed.

(** C2.  The normalizer of [server.js] computes, for every string, what the
    documentation describes: letters lower-cased, then every hyphen and
    underscore replaced with one space, then every maximal run of whitespace
    collapsed to one space, then leading and trailing whitespace removed.  It
    is a function (total and pure), the empty string is mapped to the empty
    string, and ["leg-_press"] becomes ["leg press"] with one space, which
    collapsing before replacing the separators would not give. *)
Theorem normalizeName_spec :
  (forall s, normalizeName s = Spec.normalize s)
  /\ normalizeName [] = []
  /\ normalizeName (lit "leg-_press") = lit "leg press"
  /\ Spec.normalizeCollapseFirst (lit "leg-_press") = lit "leg  press".
Proof.
  split; [exact normalizeName_refines|].
  repeat split; reflexivity.
Qed.

(** ** What the steps of the normalizer leave unchanged *)

Section Preserved.

Variable P : ascii -> Prop.

Lemma Forall_skipWhiteSpace s : Forall P s -> Forall P (skipWhiteSpace s).
Proof.
  induction 1 as [|c r Hc Hr IH]; simpl; [constructor|].
  destruct (isWhiteSpace c); [exact IH | now constructor].
Qed.

Lemma Forall_trimEnd s : Forall P s -> Forall P (trimEnd s).
Proof.
  intros H. unfold trimEnd.
  apply Forall_rev, Forall_skipWhiteSpace, Forall_rev, H.
Qed.

Lemma Forall_trim s : Forall P s -> Forall P (trim s).
Proof. intros H. apply Forall_trimEnd, Forall_skipWhiteSpace, H. Qed.

Hypothesis P_space : P space.

Lemma Forall_replaceWhiteSpaceRuns s :
  Forall P s -> Forall P (replaceWhiteSpaceRuns s).
Proof.
  induction s as [s IH] using length_ind.
  destruct s as [|c r]; [constructor|].
  intros H. inversion H as [|? ? Hc Hr]; subst.
  rewrite replaceWhiteSpaceRuns_cons.
  destruct (isWhiteSpace c); constructor; trivial; apply IH.
  - simpl. pose proof (skipWhiteSpace_length r). lia.
  - now apply Forall_skipWhiteSpace.
  - simpl. lia.
  - exact Hr.
Qed.

End Preserved.

Lemma plain_after_replace x :
  Forall plain (replaceHyphenUnderscore (toLowerCase x)).
Proof.
  unfold replaceHyphenUnderscore, toLowerCase. rewrite map_map.
  apply Forall_forall. intros c Hc. apply in_map_iff in Hc.
  destruct Hc as [d [<- _]]. split.
  - symmetry. apply toLowerCaseChar_space_fixed.
  - apply separator_gone.
Qed.

Lemma plain_fixed s :
  Forall plain s -> replaceHyphenUnderscore (toLowerCase s) = s.
Proof.
  induction 1 as [|c r [Hl Hs] Hr IH]; [reflexivity|].
  unfold replaceHyphenUnderscore, toLowerCase in *. simpl.
  now rewrite IH, Hl, Hs.
Qed.

Lemma headNotWhiteSpace_replace s :
  headNotWhiteSpace s = true ->
  headNotWhiteSpace (replaceWhiteSpaceRuns s) = true.
Proof.
  destruct s as [|c r]; [reflexivity|]. simpl.
  destruct (isWhiteSpace c) eqn:E; [discriminate|].
  intros _. simpl. now rewrite E.
Qed.

Lemma collapsed_replaceWhiteSpaceRuns s :
  collapsed (replaceWhiteSpaceRuns s) = true.
Proof.
  induction s as [s IH] using length_ind.
  destruct s as [|c r]; [reflexivity|].
  rewrite replaceWhiteSpaceRuns_cons.
  destruct (isWhiteSpace c) eqn:E; simpl.
  - rewrite headNotWhiteSpace_replace by apply skipWhiteSpace_head.
    apply IH. simpl. pose proof (skipWhiteSpace_length r). lia.
  - rewrite E. apply IH. simpl. lia.
Qed.

Lemma collapsed_tail c r : collapsed (c :: r) = true -> collapsed r = true.
Proof. simpl. intros H. now apply andb_true_iff in H. Qed.

Lemma collapsed_skipWhiteSpace s :
  collapsed s = true -> collapsed (skipWhiteSpace s) = true.
Proof.
  induction s as [|c r IH]; [trivial|].
  intros H. simpl skipWhiteSpace.
  destruct (isWhiteSpace c); [|exact H].
  apply IH, (collapsed_tail _ _ H).
Qed.

(** What [trimEnd] keeps of a non-empty string begins with its first
    character. *)
Lemma trimEnd_first r d t :
  trimEnd r = d :: t -> exists r', r = d :: r'.
Proof.
  destruct r as [|c r]; [discriminate|].
  rewrite trimEnd_cons.
  destruct (trimEnd r) as [|x y].
  - destruct (isWhiteSpace c); [discriminate|].
    intros [= <- _]. now exists r.
  - intros [= <- _]. now exists r.
Qed.

Lemma collapsed_trimEnd s :
  collapsed s = true -> collapsed (trimEnd s) = true.
Proof.
  induction s as [|c r IH]; [trivial|].
  intros H. pose proof (IH (collapsed_tail _ _ H)) as Hr.
  rewrite trimEnd_cons.
  destruct (trimEnd r) as [|d t] eqn:E.
  - destruct (isWhiteSpace c) eqn:Ec; [reflexivity|]. simpl. now rewrite Ec.
  - destruct (trimEnd_first _ E) as [r' ->].
    simpl in H |- *. apply andb_true_iff in H. destruct H as [H _].
    apply andb_true_iff. split; [exact H | exact Hr].
Qed.

Lemma collapsed_fixed s :
  collapsed s = true -> replaceWhiteSpaceRuns s = s.
Proof.
  induction s as [|c r IH]; [reflexivity|].
  intros H. pose proof (IH (collapsed_tail _ _ H)) as Hr.
  simpl in H |- *.
  destruct (isWhiteSpace c); [|now rewrite Hr].
  apply andb_true_iff in H. destruct H as [H _].
  apply andb_true_iff in H. destruct H as [Hc Hh].
  apply eqbChar_true in Hc. subst c.
  now rewrite (skipWhiteSpace_fixed _ Hh), Hr.
Qed.

Lemma plain_space : plain space.
Proof. split; reflexivity. Qed.

(** C4.  Normalization is idempotent: normalizing a normalized name gives
    the same name. *)
Theorem normalizeName_idempotent :
  forall x, normalizeName (normalizeName x) = normalizeName x.
Proof.
  intros x. unfold normalizeName at 1.
  assert (Hp : Forall plain (normalizeName x)).
  { apply Forall_trim, Forall_replaceWhiteSpaceRuns.
    - exact plain_space.
    - apply plain_after_replace. }
  rewrite (plain_fixed Hp).
  assert (Hc : collapsed (normalizeName x) = true).
  { apply collapsed_trimEnd, collapsed_skipWhiteSpace.
    apply collapsed_replaceWhiteSpaceRuns. }
  rewrite (collapsed_fixed _ Hc).
  apply trim_idem.
Qed.

(** ** Substrings *)

Lemma startsWith_spec s t :
  startsWith s t = true <-> exists after, s = t ++ after.
Proof.
  revert s. induction t as [|b t IH]; intros s; simpl.
  - destruct s; split; eauto.
  - destruct s as [|a s].
    + split; [discriminate | intros [after H]; discriminate].
    + simpl. rewrite andb_true_iff, eqbChar_true, IH. split.
      * intros [-> [after ->]]. now exists after.
      * intros [after [= -> ->]]. eauto.
Qed.

Lemma includes_spec s t : includes s t = true <-> Spec.Substring t s.
Proof.
  unfold Spec.Substring. induction s as [|a s IH].
  - destruct t as [|b t]; simpl.
    + split; [intros _; now exists [], [] | reflexivity].
    + split; [discriminate|].
      intros [before [after H]]. destruct before; discriminate.
  - change (includes (a :: s) t) with (startsWith (a :: s) t || includes s t).
    rewrite orb_true_iff, startsWith_spec, IH. split.
    + intros [[after H] | [before [after H]]].
      * now exists [], after.
      * exists (a :: before), after. simpl. now rewrite H.
    + intros [[|b before] [after H]].
      * left. now exists after.
      * right. injection H as _ H. now exists before, after.
Qed.

Lemma includes_empty s : includes s [] = true.
Proof. apply includes_spec. now exists [], s. Qed.

(** ** The first match *)

Lemma find_first {A} (f : A -> bool) l e :
  find f l = Some e <->
  exists before after,
    l = before ++ e :: after /\ f e = true
    /\ Forall (fun x => f x = false) before.
Proof.
  induction l as [|a l IH]; simpl.
  - split; [discriminate|]. intros [[|? ?] [? [H _]]]; discriminate.
  - destruct (f a) eqn:E.
    + split.
      * intros [= <-]. exists [], l. repeat split; trivial.
      * intros [[|b before] [after [H [He Hb]]]].
        -- now injection H as <- _.
        -- injection H as <- _. inversion Hb; congruence.
    + rewrite IH. split.
      * intros [before [after [-> [He Hb]]]].
        exists (a :: before), after. repeat split; trivial. now constructor.
      * intros [[|b before] [after [H [He Hb]]]].
        -- injection H as <- _. congruence.
        -- injection H as <- ->. inversion Hb; subst. eauto.
Qed.

Lemma find_none {A} (f : A -> bool) l :
  find f l = None <-> Forall (fun x => f x = false) l.
Proof.
  induction l as [|a l IH]; simpl.
  - split; trivial.
  - destruct (f a) eqn:E.
    + split; [discriminate|]. inversion 1; congruence.
    + rewrite IH. split; [now constructor | now inversion 1].
Qed.

Lemma matchesName_spec q ex :
  matchesName (normalizeName q) ex = true <-> Spec.Candidate q ex.
Proof.
  unfold matchesName, Spec.Candidate.
  now rewrite orb_true_iff, !includes_spec.
Qed.

Lemma matchesName_false q ex :
  matchesName (normalizeName q) ex = false <-> ~ Spec.Candidate q ex.
Proof.
  rewrite <- matchesName_spec. now destruct (matchesName _ ex).
Qed.

Lemma not_candidates q l :
  Forall (fun x => matchesName (normalizeName q) x = false) l
  <-> Forall (fun x => ~ Spec.Candidate q x) l.
Proof.
  rewrite !Forall_forall. split; intros H x Hx; apply matchesName_false; auto.
Qed.

Lemma matchingExercise_first q db e :
  matchingExercise q db = Some e <-> Spec.FirstCandidate q db e.
Proof.
  unfold matchingExercise, Spec.FirstCandidate. rewrite find_first.
  split; intros [before [after [H [He Hb]]]]; exists before, after;
    repeat split; trivial;
    try (now apply matchesName_spec); now apply not_candidates.
Qed.

Lemma matchingExercise_none q db :
  matchingExercise q db = None <-> Forall (fun x => ~ Spec.Candidate q x) db.
Proof.
  unfold matchingExercise. now rewrite find_none, not_candidates.
Qed.

(** C1.  The matcher scans the catalog in order: an entry is a candidate
    exactly when the normalized query is a substring of its normalized name
    or the other way round, the entry found is the first candidate (every
    entry before it is not one), nothing is found exactly when no entry is
    a candidate, and the images the endpoint returns are those of that first
    candidate. *)
Theorem first_match_wins :
  forall (q : jsstring) (db : Catalog),
    (forall ex, matchesName (normalizeName q) ex = true <-> Spec.Candidate q ex)
    /\ (forall e, matchingExercise q db = Some e <->
          exists before after,
            db = before ++ e :: after /\ Spec.Candidate q e
            /\ Forall (fun x => ~ Spec.Candidate q x) before)
    /\ (matchingExercise q db = None <->
          Forall (fun x => ~ Spec.Candidate q x) db)
    /\ (forall fetched urls,
          body_images (body (fst (getExerciseImage fetched (Some db) q)))
            = Some urls ->
          exists e before after,
            db = before ++ e :: after /\ Spec.Candidate q e
            /\ Forall (fun x => ~ Spec.Candidate q x) before
            /\ urls = map imageUrl (images e)).
Proof.
  intros q db. split; [apply matchesName_spec|].
  split; [intros e; apply matchingExercise_first|].
  split; [apply matchingExercise_none|].
  intros fetched urls. unfold getExerciseImage.
  destruct (matchingExercise q db) as [e|] eqn:E; [|discriminate].
  destruct (0 <? length (images e)); [|discriminate].
  simpl. intros [= <-].
  apply matchingExercise_first in E. destruct E as [before [after [H1 [H2 H3]]]].
  now exists e, before, after.
Qed.

(** ** The image endpoint *)


(** The answer of the endpoint once the dataset is there. *)
Lemma getExerciseImage_loaded fetched exerciseDatabase q db :
  Spec.availableCatalog fetched exerciseDatabase = Some db ->
  fst (getExerciseImage fetched exerciseDatabase q) =
  match matchingExercise q db with
  | Some ex =>
      match images ex with
      | [] => res_json not_found_body
      | _ :: _ => res_json {| body_images := Some (map imageUrl (images ex));
                              found := true |}
      end
  | None => res_json not_found_body
  end.
Proof.
  unfold getExerciseImage, Spec.availableCatalog, loadExerciseDatabase.
  destruct exerciseDatabase as [db'|]; [|destruct fetched as [db'|]];
    intros [= ->];
    (destruct (matchingExercise q db) as [e|]; [|reflexivity]);
    now destruct (images e).
Qed.

Lemma getExerciseImage_unloaded q :
  fst (getExerciseImage None None q) = res_json not_found_body.
Proof. reflexivity. Qed.

Lemma availableCatalog_none fetched exerciseDatabase :
  Spec.availableCatalog fetched exerciseDatabase = None <->
  exerciseDatabase = None /\ fetched = None.
Proof.
  unfold Spec.availableCatalog.
  destruct exerciseDatabase, fetched; split; try discriminate; auto;
    intros [? ?]; discriminate.
Qed.

(** C3.  The lookup always answers with status 200.  The answer is
    [{found: false, images: null}] exactly when the dataset is not there
    (not loaded, and the load attempted by the lookup fails), or no entry is
    a candidate, or the first candidate has no images; otherwise it is
    [{found: true, images: urls}] with the URLs of the first candidate. *)
Theorem lookup_not_found_exactly :
  forall (fetched exerciseDatabase : option Catalog) (q : jsstring),
    let r := fst (getExerciseImage fetched exerciseDatabase q) in
    status r = 200
    /\ (body r = not_found_body <->
          (exerciseDatabase = None /\ fetched = None)
          \/ (exists db,
                Spec.availableCatalog fetched exerciseDatabase = Some db
                /\ Forall (fun x => ~ Spec.Candidate q x) db)
          \/ (exists db e,
                Spec.availableCatalog fetched exerciseDatabase = Some db
                /\ Spec.FirstCandidate q db e /\ images e = []))
    /\ (body r = not_found_body
        \/ exists db e,
             Spec.availableCatalog fetched exerciseDatabase = Some db
             /\ Spec.FirstCandidate q db e /\ images e <> []
             /\ body r = {| body_images := Some (map imageUrl (images e));
                            found := true |}).
Proof.
  intros fetched exerciseDatabase q r. subst r.
  destruct (Spec.availableCatalog fetched exerciseDatabase) as [db|] eqn:A.
  - rewrite (getExerciseImage_loaded _ _ q A).
    destruct (matchingExercise q db) as [e|] eqn:M.
    + pose proof (proj1 (matchingExercise_first q db e) M) as F.
      destruct (images e) as [|i l] eqn:I.
      * split; [reflexivity|]. split; [|now left].
        split; [|reflexivity]. intros _. right. right. now exists db, e.
      * split; [reflexivity|]. split.
        -- split; [discriminate|].
           intros [[-> ->] | [[db' [[= <-] N]] | [db' [e' [[= <-] [F' I']]]]]].
           ++ discriminate A.
           ++ apply matchingExercise_none in N. congruence.
           ++ apply matchingExercise_first in F'. congruence.
        -- right. exists db, e. rewrite I. repeat split; trivial. discriminate.
    + split; [reflexivity|]. split; [|now left].
      split; [|reflexivity]. intros _. right. left. exists db.
      split; [reflexivity|]. now apply matchingExercise_none.
  - apply availableCatalog_none in A. destruct A as [-> ->].
    split; [reflexivity|]. split; [|now left].
    split; [|reflexivity]. intros _. now left.
Qed.

(** C7.  When the first candidate has images, every URL returned is the base
    URL, one slash, and the fragment, and the URLs come in the order of the
    fragments; the fragment ["Curl/0.jpg"] expands to ["<base>/Curl/0.jpg"]. *)
Theorem image_urls_expand :
  forall (fetched exerciseDatabase : option Catalog) (q : jsstring)
         (db : Catalog) (e : ImageCatalogEntry),
    Spec.availableCatalog fetched exerciseDatabase = Some db ->
    matchingExercise q db = Some e ->
    images e <> [] ->
    exists urls,
      body (fst (getExerciseImage fetched exerciseDatabase q))
        = {| body_images := Some urls; found := true |}
      /\ urls = map (fun fragment => Spec.baseUrl ++ lit "/" ++ fragment)
                    (images e)
      /\ length urls = length (images e)
      /\ (forall i fragment,
            nth_error (images e) i = Some fragment ->
            nth_error urls i = Some (Spec.baseUrl ++ lit "/" ++ fragment))
      /\ imageUrl (lit "Curl/0.jpg")
         = lit "https://raw.githubusercontent.com/yuhonas/free-exercise-db/main/exercises/Curl/0.jpg".
Proof.
  intros fetched exerciseDatabase q db e A M I.
  exists (map imageUrl (images e)).
  rewrite (getExerciseImage_loaded _ _ q A), M.
  destruct (images e) as [|i l] eqn:E; [contradiction|].
  split; [reflexivity|]. split; [reflexivity|].
  split; [apply length_map|]. split; [|reflexivity].
  intros n fragment H. rewrite nth_error_map, H. reflexivity.
Qed.

Lemma image_urls_expand_witness :
  exists urls,
    body (fst (getExerciseImage None (Some curlCatalog) (lit "curl")))
      = {| body_images := Some urls; found := true |}
    /\ urls = map (fun fragment => Spec.baseUrl ++ lit "/" ++ fragment)
                  [lit "Curl/0.jpg"; lit "Curl/1.jpg"].
Proof.
  destruct (@image_urls_expand None (Some curlCatalog) (lit "curl") curlCatalog
              {| name := lit "Curl";
                 images := [lit "Curl/0.jpg"; lit "Curl/1.jpg"] |})
    as [urls [H1 [H2 _]]].
  - reflexivity.
  - reflexivity.
  - discriminate.
  - exists urls. split; [exact H1 | exact H2].
Defined.

(** ** Queries that normalize to the empty string *)

Lemma skipWhiteSpace_nil s : skipWhiteSpace s = [] <-> Forall blank s.
Proof.
  induction s as [|c r IH]; simpl; [split; trivial|].
  destruct (isWhiteSpace c) eqn:E.
  - rewrite IH. split; [now constructor | now inversion 1].
  - split; [discriminate|]. inversion 1. unfold blank in *. congruence.
Qed.

Lemma rev_nil {A} (l : list A) : rev l = [] <-> l = [].
Proof.
  split; [|now intros ->].
  intros H. apply (f_equal (@rev A)) in H. now rewrite rev_involutive in H.
Qed.

Lemma blank_skipWhiteSpace s : Forall blank (skipWhiteSpace s) <-> Forall blank s.
Proof.
  split; intros H.
  - apply skipWhiteSpace_nil. rewrite <- skipWhiteSpace_idem.
    now apply skipWhiteSpace_nil.
  - apply skipWhiteSpace_nil in H. rewrite H. constructor.
Qed.

Lemma trim_nil s : trim s = [] <-> Forall blank s.
Proof.
  unfold trim, trimEnd, trimStart. split; intros H.
  - apply rev_nil, skipWhiteSpace_nil, Forall_rev in H.
    rewrite rev_involutive in H. now apply blank_skipWhiteSpace.
  - apply rev_nil, skipWhiteSpace_nil, Forall_rev.
    now apply blank_skipWhiteSpace.
Qed.

Lemma blank_replaceWhiteSpaceRuns s :
  Forall blank (replaceWhiteSpaceRuns s) <-> Forall blank s.
Proof.
  induction s as [s IH] using length_ind.
  destruct s as [|c r]; [reflexivity|].
  rewrite replaceWhiteSpaceRuns_cons.
  destruct (isWhiteSpace c) eqn:E.
  - rewrite !Forall_cons_iff, IH, blank_skipWhiteSpace.
    + unfold blank at 1 3. rewrite E. intuition reflexivity.
    + simpl. pose proof (skipWhiteSpace_length r). lia.
  - rewrite !Forall_cons_iff, IH by (simpl; lia). reflexivity.
Qed.

Lemma blank_after_replace c :
  isWhiteSpace (if isHyphenOrUnderscore (toLowerCaseChar c)
                then space else toLowerCaseChar c)
  = isWhiteSpace c || isHyphenOrUnderscore c.
Proof. each_char c. Qed.

Lemma normalizeName_nil q :
  normalizeName q = [] <->
  Forall (fun c => isWhiteSpace c = true \/ isHyphenOrUnderscore c = true) q.
Proof.
  unfold normalizeName. split; intros H.
  - apply trim_nil in H. apply -> blank_replaceWhiteSpaceRuns in H.
    unfold replaceHyphenUnderscore, toLowerCase in H.
    rewrite map_map, Forall_map in H.
    rewrite Forall_forall in *. intros c Hc. specialize (H c Hc).
    unfold blank in H. rewrite blank_after_replace in H.
    now apply orb_true_iff.
  - apply trim_nil, blank_replaceWhiteSpaceRuns.
    unfold replaceHyphenUnderscore, toLowerCase.
    rewrite map_map, Forall_map.
    rewrite Forall_forall in *. intros c Hc. specialize (H c Hc).
    unfold blank. rewrite blank_after_replace.
    now apply orb_true_iff.
Qed.

(** C9.  The queries whose normalization is empty are the empty query and
    those made of whitespace, hyphens and underscores only.  Such a query
    matches the first entry of any non-empty catalog, the empty string being
    a substring of every normalized name, and the lookup then answers with
    the URLs of that entry's images whenever it has some. *)
Theorem empty_query_matches_first :
  forall (q : jsstring) (e : ImageCatalogEntry) (rest : Catalog),
    Forall (fun c => isWhiteSpace c = true \/ isHyphenOrUnderscore c = true) q ->
    normalizeName q = []
    /\ Spec.Substring (normalizeName q) (normalizeName (name e))
    /\ matchingExercise q (e :: rest) = Some e
    /\ (images e <> [] ->
        forall fetched,
          fst (getExerciseImage fetched (Some (e :: rest)) q)
          = res_json {| body_images := Some (map imageUrl (images e));
                        found := true |}).
Proof.
  intros q e rest H. apply normalizeName_nil in H.
  assert (M : matchingExercise q (e :: rest) = Some e).
  { unfold matchingExercise, matchesName. simpl. rewrite H.
    now rewrite includes_empty. }
  split; [exact H|]. split; [|split; [exact M|]].
  - rewrite H. now exists [], (normalizeName (name e)).
  - intros I fetched.
    rewrite (@getExerciseImage_loaded fetched (Some (e :: rest)) q (e :: rest))
      by reflexivity.
    rewrite M. destruct (images e); [contradiction | reflexivity].
Qed.

Lemma empty_query_matches_first_witness :
  matchingExercise (lit " -_ ") curlCatalog
  = Some {| name := lit "Bench Press"; images := [lit "Bench_Press/0.jpg"] |}
  /\ fst (getExerciseImage None (Some curlCatalog) (lit " -_ "))
     = res_json {| body_images := Some [imageUrl (lit "Bench_Press/0.jpg")];
                   found := true |}.
Proof.
  destruct (@empty_query_matches_first (lit " -_ ")
              {| name := lit "Bench Press";
                 images := [lit "Bench_Press/0.jpg"] |}
              [{| name := lit "Curl";
                  images := [lit "Curl/0.jpg"; lit "Curl/1.jpg"] |}])
    as [_ [_ [M F]]].
  - repeat (apply Forall_cons;
            [first [left; reflexivity | right; reflexivity]|]).
    apply Forall_nil.
  - split; [exact M|]. apply F. discriminate.
Defined.

(** ** The catalog store *)

Section UpdateWhereId.

Variable set : Row -> Row.
Hypothesis set_id : forall r, id (set r) = id r.
Variable key : Z.

Lemma find_updated (l : list Row) :
  find (fun r => id r =? key)%Z
       (map (fun r => if (id r =? key)%Z then set r else r) l)
  = option_map set (find (fun r => id r =? key)%Z l).
Proof.
  induction l as [|a l IH]; simpl; [reflexivity|].
  destruct (id a =? key)%Z eqn:E.
  - now rewrite set_id, E.
  - now rewrite E, IH.
Qed.

Lemma getExerciseById_updated st :
  getExerciseById key (snd (updateWhereId set key st))
  = option_map set (getExerciseById key st).
Proof. unfold getExerciseById. simpl. apply find_updated. Qed.

End UpdateWhereId.

Lemma changes_zero key (l : list Row) :
  length (filter (fun r => id r =? key)%Z l) = 0
  <-> find (fun r => id r =? key)%Z l = None.
Proof.
  induction l as [|a l IH]; simpl; [split; trivial|].
  destruct (id a =? key)%Z; simpl; [split; discriminate | exact IH].
Qed.

Lemma map_unmatched (set : Row -> Row) key (l : list Row) :
  find (fun r => id r =? key)%Z l = None ->
  map (fun r => if (id r =? key)%Z then set r else r) l = l.
Proof.
  induction l as [|a l IH]; simpl; [reflexivity|].
  destruct (id a =? key)%Z; [discriminate|].
  intros H. now rewrite (IH H).
Qed.

Lemma updateWhereId_missing set key st :
  getExerciseById key st = None ->
  updateWhereId set key st = ({| changes := 0 |}, st).
Proof.
  unfold getExerciseById, updateWhereId. intros H.
  rewrite (map_unmatched set _ _ H), (proj2 (changes_zero key (rows st)) H).
  now destruct st.
Qed.

Lemma updateWhereId_changes set key st r :
  getExerciseById key st = Some r ->
  (changes (fst (updateWhereId set key st)) =? 0) = false.
Proof.
  unfold getExerciseById. simpl. intros H.
  apply Nat.eqb_neq. intros C. apply changes_zero in C. congruence.
Qed.

Lemma setToggle_id now r : id (setToggle now r) = id r.
Proof. reflexivity. Qed.

Lemma isFavorited_toggled now r :
  isFavorited (setToggle now r) = negb (isFavorited r).
Proof.
  unfold isFavorited. simpl.
  destruct (is_favorited r) as [[|[p|p|]|p]|]; reflexivity.
Qed.

(** A successful toggle through the route. *)
Lemma patchFavorite_existing now key st r :
  getExerciseById key st = Some r ->
  patchFavorite now key st
  = (res_json (RecordBody (transform (setToggle now r))),
     snd (toggleFavorite now key st))
  /\ getExerciseById key (snd (toggleFavorite now key st))
     = Some (setToggle now r).
Proof.
  intros H.
  assert (G : getExerciseById key (snd (toggleFavorite now key st))
              = Some (setToggle now r)).
  { unfold toggleFavorite.
    rewrite (getExerciseById_updated (setToggle now) (setToggle_id now)), H.
    reflexivity. }
  split; [|exact G].
  unfold patchFavorite.
  pose proof (updateWhereId_changes (setToggle now) _ _ H) as C.
  unfold toggleFavorite in *.
  destruct (updateWhereId (setToggle now) key st) as [result st1].
  simpl in *. now rewrite C, G.
Qed.

(** C5.  For an id that has a record, one toggle inverts [isFavorited] and
    sets the modification timestamp, the route answering 200 with the
    updated record; a second toggle brings [isFavorited] back to its
    original value. *)
Theorem toggle_twice_restores :
  forall (now1 now2 : timestamp) (key : Z) (st : Store) (r : Row),
    getExerciseById key st = Some r ->
    let st1 := snd (patchFavorite now1 key st) in
    let st2 := snd (patchFavorite now2 key st1) in
    exists r1 r2,
      getExerciseById key st1 = Some r1
      /\ isFavorited r1 = negb (isFavorited r)
      /\ last_updated r1 = Some now1
      /\ fst (patchFavorite now1 key st) = res_json (RecordBody (transform r1))
      /\ getExerciseById key st2 = Some r2
      /\ isFavorited r2 = isFavorited r
      /\ last_updated r2 = Some now2
      /\ fst (patchFavorite now2 key st1) = res_json (RecordBody (transform r2)).
Proof.
  intros now1 now2 key st r H st1 st2.
  destruct (patchFavorite_existing now1 key st H) as [P1 G1].
  assert (E1 : st1 = snd (toggleFavorite now1 key st))
    by (subst st1; now rewrite P1).
  rewrite <- E1 in G1.
  destruct (patchFavorite_existing now2 key st1 G1) as [P2 G2].
  assert (E2 : st2 = snd (toggleFavorite now2 key st1))
    by (subst st2; now rewrite P2).
  rewrite <- E2 in G2.
  exists (setToggle now1 r), (setToggle now2 (setToggle now1 r)).
  rewrite P1, P2. simpl fst.
  repeat split; trivial.
  - apply isFavorited_toggled.
  - rewrite !isFavorited_toggled. apply negb_involutive.
Qed.

(** C6.  For an id that has no record, the route answers 404 with an error
    body and the store is what it was. *)
Theorem toggle_missing_not_found :
  forall (now : timestamp) (key : Z) (st : Store),
    getExerciseById key st = None ->
    patchFavorite now key st
    = (res_status_json 404 (ErrorBody (lit "Exercise not found")), st)
    /\ toggleFavorite now key st = ({| changes := 0 |}, st).
Proof.
  intros now key st H.
  unfold patchFavorite, toggleFavorite.
  now rewrite (updateWhereId_missing (setToggle now) _ _ H).
Qed.

(** C8.  A toggle keeps the rows in place; the rows of another id are
    unchanged, and in a row of the toggled id every column other than
    [is_favorited] and [last_updated] is unchanged. *)
Theorem toggle_frame :
  forall (now : timestamp) (key : Z) (st : Store),
    let st' := snd (toggleFavorite now key st) in
    seq st' = seq st
    /\ Forall2
         (fun r r' =>
            (id r <> key -> r' = r)
            /\ (id r = key ->
                id r' = id r
                /\ exercise_name r' = exercise_name r
                /\ exercise_type r' = exercise_type r
                /\ muscle r' = muscle r
                /\ equipment r' = equipment r
                /\ difficulty r' = difficulty r
                /\ instructions r' = instructions r
                /\ created_timestamp r' = created_timestamp r
                /\ is_favorited r' = caseFavorited (is_favorited r)
                /\ last_updated r' = Some now))
         (rows st) (rows st').
Proof.
  intros now key st st'. subst st'. simpl. split; [reflexivity|].
  induction (rows st) as [|a l IH]; simpl; constructor; trivial.
  destruct (id a =? key)%Z eqn:E.
  - apply Z.eqb_eq in E. split; [congruence|]. intros _. now repeat split.
  - apply Z.eqb_neq in E. split; [reflexivity | contradiction].
Qed.

Lemma toggle_twice_restores_witness :
  exists r1 r2,
    getExerciseById 2%Z (snd (patchFavorite 200%Z 2%Z twoExercises)) = Some r1
    /\ isFavorited r1 = false
    /\ getExerciseById 2%Z
         (snd (patchFavorite 300%Z 2%Z
                 (snd (patchFavorite 200%Z 2%Z twoExercises))))
       = Some r2
    /\ isFavorited r2 = true.
Proof.
  destruct (@toggle_twice_restores 200%Z 300%Z 2%Z twoExercises lunge eq_refl)
    as [r1 [r2 [G1 [F1 [_ [_ [G2 [F2 _]]]]]]]].
  exists r1, r2. repeat split; assumption.
Defined.

Lemma toggle_missing_not_found_witness :
  patchFavorite 200%Z 7%Z twoExercises
  = (res_status_json 404 (ErrorBody (lit "Exercise not found")), twoExercises).
Proof.
  exact (proj1 (@toggle_missing_not_found 200%Z 7%Z twoExercises eq_refl)).
Defined.

(** ** Names under creation and update *)

Lemma exerciseExists_false nm st :
  exerciseExists nm st = false -> ~ In nm (map exercise_name (rows st)).
Proof.
  unfold exerciseExists.
  destruct (find _ (rows st)) eqn:F; [discriminate|]. intros _.
  apply find_none in F. rewrite Forall_forall in F.
  intros H. apply in_map_iff in H. destruct H as [r [Hn Hr]].
  specialize (F r Hr). simpl in F.
  now destruct (list_eq_dec ascii_dec (exercise_name r) nm).
Qed.

Lemma exerciseExists_true nm st :
  exerciseExists nm st = true <-> In nm (map exercise_name (rows st)).
Proof.
  split.
  - unfold exerciseExists.
    destruct (find _ (rows st)) as [r|] eqn:F; [|discriminate]. intros _.
    apply find_some in F. destruct F as [Hr Hn]. apply in_map_iff. exists r.
    split; [|exact Hr].
    now destruct (list_eq_dec ascii_dec (exercise_name r) nm).
  - intros H. destruct (exerciseExists nm st) eqn:E; [reflexivity|].
    now apply exerciseExists_false in E.
Qed.

Lemma NoDup_snoc {A} (l : list A) x : NoDup l -> ~ In x l -> NoDup (l ++ [x]).
Proof.
  intros Hl Hx. apply NoDup_rev in Hl.
  rewrite <- (rev_involutive (l ++ [x])). apply NoDup_rev.
  rewrite rev_app_distr. simpl. constructor; [|exact Hl].
  now rewrite <- in_rev.
Qed.

Lemma postExercise_unique now b st :
  Spec.UniqueNames st -> Spec.UniqueNames (snd (postExercise now b st)).
Proof.
  intros U. unfold postExercise.
  destruct (present (p_name b)) as [nm|]; [|exact U].
  destruct (present (p_type b)); [|exact U].
  destruct (present (p_muscle b)); [|exact U].
  destruct (present (p_equipment b)); [|exact U].
  destruct (present (p_difficulty b)); [|exact U].
  destruct (present (p_instructions b)); [|exact U].
  destruct (exerciseExists nm st) eqn:E; [exact U|].
  unfold Spec.UniqueNames. simpl. rewrite map_app. simpl.
  apply NoDup_snoc; [exact U | now apply exerciseExists_false].
Qed.

Lemma postExercise_conflict now b st nm :
  present (p_name b) = Some nm ->
  In nm (map exercise_name (rows st)) ->
  postExercise now b st = (res_status_json 400 MissingFieldsBody, st)
  \/ postExercise now b st
     = (res_status_json 409
          (ErrorBody (lit "Exercise with this name already exists")), st).
Proof.
  intros P H. apply exerciseExists_true in H. unfold postExercise. rewrite P.
  destruct (present (p_type b)); [|now left].
  destruct (present (p_muscle b)); [|now left].
  destruct (present (p_equipment b)); [|now left].
  destruct (present (p_difficulty b)); [|now left].
  destruct (present (p_instructions b)); [|now left].
  rewrite H. now right.
Qed.

Lemma setUpdates_id now fields r : id (setUpdates now fields r) = id r.
Proof.
  unfold setUpdates. simpl. revert r.
  induction fields as [|kv fields IH]; intros r; simpl; [reflexivity|].
  now rewrite IH.
Qed.

(** Renaming through the route. *)
Lemma putExercise_rename now key nm st r :
  getExerciseById key st = Some r ->
  let updates := [(lit "exercise_name", JsStr nm)] in
  let r' := setUpdates now updates r in
  exercise_name r' = nm
  /\ putExercise now key updates st
     = (res_json (RecordBody (transform r')),
        snd (updateWhereId (setUpdates now updates) key st))
  /\ getExerciseById key (snd (updateWhereId (setUpdates now updates) key st))
     = Some r'.
Proof.
  intros H updates r'. split; [reflexivity|].
  assert (G : getExerciseById key
                (snd (updateWhereId (setUpdates now updates) key st)) = Some r').
  { rewrite (getExerciseById_updated _ (setUpdates_id now updates)), H.
    reflexivity. }
  split; [|exact G].
  unfold putExercise, updateExercise.
  change (keptFields updates) with updates. simpl (length updates =? 0).
  pose proof (updateWhereId_changes (setUpdates now updates) _ _ H) as C.
  destruct (updateWhereId (setUpdates now updates) key st) as [result st1].
  simpl in *. now rewrite C, G.
Qed.

(** C10.  Creation keeps the names unique: a [POST] of a name that a record
    bears is refused and changes nothing.  Update does not: a [PUT] that
    renames an existing record is answered 200 whatever the new name is, and
    there is a store of two records with distinct names in which renaming the
    second to the name of the first succeeds and leaves two records with the
    same name. *)
Theorem update_breaks_unique_names :
  (forall now b st,
     Spec.UniqueNames st -> Spec.UniqueNames (snd (postExercise now b st)))
  /\ (forall now b st nm,
        present (p_name b) = Some nm ->
        In nm (map exercise_name (rows st)) ->
        snd (postExercise now b st) = st
        /\ (status (fst (postExercise now b st)) = 400
            \/ status (fst (postExercise now b st)) = 409))
  /\ (forall now key nm st r,
        getExerciseById key st = Some r ->
        exists r',
          fst (putExercise now key [(lit "exercise_name", JsStr nm)] st)
          = res_json (RecordBody (transform r'))
          /\ exercise_name r' = nm)
  /\ exists (st : Store) (A B : Row) (now : timestamp),
       rows st = [A; B]
       /\ id A <> id B
       /\ exercise_name A <> exercise_name B
       /\ Spec.UniqueNames st
       /\ let '(response, st') :=
            putExercise now (id B)
              [(lit "exercise_name", JsStr (exercise_name A))] st in
          status response = 200
          /\ ~ Spec.UniqueNames st'
          /\ exists B', rows st' = [A; B']
                        /\ id B' = id B
                        /\ exercise_name B' = exercise_name A.
Proof.
  split; [exact postExercise_unique|]. split; [|split].
  - intros now b st nm P H.
    destruct (postExercise_conflict now b st P H) as [-> | ->]; simpl; auto.
  - intros now key nm st r H.
    destruct (@putExercise_rename now key nm st r H) as [N [P _]].
    eexists. rewrite P. split; [reflexivity | exact N].
  - exists twoExercises, squat, lunge, 500%Z.
    split; [reflexivity|]. split; [discriminate|]. split; [discriminate|].
    split.
    + unfold Spec.UniqueNames. simpl. repeat constructor; simpl.
      * intros [H | []]. discriminate H.
      * intros [].
    + cbv beta iota.
      change (putExercise 500%Z (id lunge)
                [(lit "exercise_name", JsStr (exercise_name squat))] twoExercises)
        with (res_json (RecordBody (transform
                (setUpdates 500%Z [(lit "exercise_name", JsStr (lit "Squat"))] lunge))),
              {| rows := [squat;
                   setUpdates 500%Z [(lit "exercise_name", JsStr (lit "Squat"))] lunge];
                 seq := 2%Z |}).
      split; [reflexivity|]. split.
      * unfold Spec.UniqueNames. simpl. intros U. inversion U as [|? ? N _].
        apply N. now left.
      * eexists. repeat split; reflexivity.
Qed.

(** ** The documented examples *)

Example normalize_separators :
  normalizeName (lit "Leg-Press") = lit "leg press"
  /\ normalizeName (lit "leg_press") = lit "leg press"
  /\ normalizeName (lit "leg   press") = lit "leg press".
Proof. repeat split; reflexivity. Qed.

Example normalize_outer_whitespace :
  normalizeName (ascii_of_nat 9 :: ascii_of_nat 160 :: lit "Sit-Up " ++ [ascii_of_nat 10])
  = lit "sit up".
Proof. reflexivity. Qed.

Example lower_case_latin1 :
  toLowerCase [ascii_of_nat 201; ascii_of_nat 215; ascii_of_nat 222]
  = [ascii_of_nat 233; ascii_of_nat 215; ascii_of_nat 254].
Proof. reflexivity. Qed.

Example query_inside_entry :
  matchesName (normalizeName (lit "press"))
              {| name := lit "Bench Press"; images := [] |} = true.
Proof. reflexivity. Qed.

Example entry_inside_query :
  matchesName (normalizeName (lit "Incline Bench Press Variant"))
              {| name := lit "bench press"; images := [] |} = true.
Proof. reflexivity. Qed.

Example no_containment :
  matchesName (normalizeName (lit "squat"))
              {| name := lit "Bench Press"; images := [] |} = false.
Proof. reflexivity. Qed.

Example earlier_entry_wins :
  matchingExercise (lit "press")
    ({| name := lit "Leg Press"; images := [lit "Leg_Press/0.jpg"] |}
     :: curlCatalog)
  = Some {| name := lit "Leg Press"; images := [lit "Leg_Press/0.jpg"] |}.
Proof. reflexivity. Qed.

Example empty_images_not_found :
  fst (getExerciseImage None (Some [{| name := lit "Curl"; images := [] |}])
         (lit "curl"))
  = res_json not_found_body.
Proof. reflexivity. Qed.

Example failed_load_not_found :
  getExerciseImage None None (lit "curl") = (res_json not_found_body, None).
Proof. reflexivity. Qed.

Example lazy_load_answers :
  getExerciseImage (Some curlCatalog) None (lit "CURL")
  = (res_json {| body_images :=
                   Some [imageUrl (lit "Curl/0.jpg"); imageUrl (lit "Curl/1.jpg")];
                 found := true |},
     Some curlCatalog).
Proof. reflexivity. Qed.

Example update_without_fields :
  putExercise 500%Z 2%Z [(lit "name", JsStr (lit "Squat"))] twoExercises
  = (res_status_json 500 (ErrorBody (lit "No valid fields to update")),
     twoExercises).
Proof. reflexivity. Qed.

Example create_taken_name :
  fst (postExercise 500%Z
         {| p_name := Some (lit "Squat"); p_type := Some (lit "strength");
            p_muscle := Some (lit "glutes"); p_equipment := Some (lit "none");
            p_difficulty := Some (lit "expert");
            p_instructions := Some (lit "Down and up.");
            p_is_favorited := None |}
         twoExercises)
  = res_status_json 409
      (ErrorBody (lit "Exercise with this name already exists")).
Proof. reflexivity. Qed.

(** * Further properties of the code *)

(** ** Creation, lookup and deletion *)

Lemma maxId_bound (l : list Row) r : In r l -> (id r <= maxId l)%Z.
Proof.
  induction l as [|a l IH]; simpl; [contradiction|].
  intros [-> | H]; [lia|]. specialize (IH H). lia.
Qed.


Lemma find_absent_id key (l : list Row) :
  (forall r, In r l -> id r <> key) ->
  find (fun r => id r =? key)%Z l = None.
Proof.
  intros H. apply find_none. apply Forall_forall. intros r Hr.
  apply Z.eqb_neq. now apply H.
Qed.

Lemma createExercise_fresh now exercise st r :
  In r (rows st) -> (id r < fst (createExercise now exercise st))%Z.
Proof. intros H. apply maxId_bound in H. simpl. lia. Qed.




Lemma updateExercise_rows now key updates st :
  snd (updateExercise now key updates st) = st
  \/ snd (updateExercise now key updates st)
     = snd (updateWhereId (setUpdates now (keptFields updates)) key st).
Proof.
  unfold updateExercise.
  destruct (length (keptFields updates) =? 0); [now left | now right].
Qed.




Lemma NoDup_map_filter {A B} (f : A -> B) (p : A -> bool) l :
  NoDup (map f l) -> NoDup (map f (filter p l)).
Proof.
  induction l as [|a l IH]; simpl; [trivial|].
  intros H. inversion H as [|? ? Hn Hl]; subst.
  destruct (p a); simpl; [|now apply IH].
  constructor; [|now apply IH].
  intros Hin. apply Hn. apply in_map_iff in Hin.
  destruct Hin as [x [Hx Hi]]. apply filter_In in Hi.
  apply in_map_iff. exists x. tauto.
Qed.

Lemma map_id_updated (set : Row -> Row) key (l : list Row) :
  (forall r, id (set r) = id r) ->
  map id (map (fun r => if (id r =? key)%Z then set r else r) l) = map id l.
Proof.
  intros H. rewrite map_map. apply map_ext. intros r.
  now destruct (id r =? key)%Z.
Qed.

(** X3.  Every writing method keeps the ids of the table distinct. *)
Theorem mutations_keep_ids_unique :
  forall (m : Mutation) (st : Store),
    UniqueIds st -> UniqueIds (mutate m st).
Proof.
  unfold UniqueIds.
  intros [now exercise | now key updates | now key | key] st U; simpl.
  - rewrite map_app. simpl. apply NoDup_snoc; [exact U|].
    intros H. apply in_map_iff in H. destruct H as [r [E Hr]].
    pose proof (createExercise_fresh now exercise st r Hr) as F.
    simpl in F. lia.
  - destruct (updateExercise_rows now key updates st) as [-> | ->];
      [exact U|].
    simpl. rewrite map_id_updated; [exact U|]. apply setUpdates_id.
  - rewrite map_id_updated; [exact U|]. apply setToggle_id.
  - now apply NoDup_map_filter.
Qed.

Lemma mutations_keep_ids_unique_witness :
  UniqueIds (mutate (Create 600%Z
                       {| new_name := lit "Plank"; new_type := lit "strength";
                          new_muscle := lit "abdominals";
                          new_equipment := lit "body_only";
                          new_difficulty := lit "beginner";
                          new_instructions := lit "Hold.";
                          new_is_favorited := false |})
                    (mutate (Delete 2%Z) twoExercises)).
Proof.
  apply mutations_keep_ids_unique. apply mutations_keep_ids_unique.
  unfold UniqueIds. simpl. repeat constructor; simpl.
  - intros [H | []]. discriminate H.
  - intros [].
Defined.

Lemma assign_flag key value r :
  is_favorited (assign key value r) = is_favorited r
  \/ is_favorited (assign key value r) = Some 0%Z
  \/ is_favorited (assign key value r) = Some 1%Z.
Proof.
  simpl. destruct (keyIs key "is_favorited"); [|now left].
  destruct (truthy value); auto.
Qed.

Lemma setUpdates_flag now fields r :
  is_favorited r = Some 0%Z \/ is_favorited r = Some 1%Z ->
  is_favorited (setUpdates now fields r) = Some 0%Z
  \/ is_favorited (setUpdates now fields r) = Some 1%Z.
Proof.
  unfold setUpdates. simpl. revert r.
  induction fields as [|[k v] fields IH]; intros r H; simpl; [exact H|].
  apply IH. destruct (assign_flag k v r) as [-> | H']; [exact H | exact H'].
Qed.

Lemma Forall_updated (P : Row -> Prop) (set : Row -> Row) key (l : list Row) :
  (forall r, P r -> P (set r)) ->
  Forall P l ->
  Forall P (map (fun r => if (id r =? key)%Z then set r else r) l).
Proof.
  intros H F. apply Forall_map. revert F. apply Forall_impl.
  intros r Hr. destruct (id r =? key)%Z; auto.
Qed.

(** X4.  Every writing method keeps [is_favorited] at 0 or 1, so the
    boolean the routes answer with, [is_favorited === 1], loses nothing. *)
Theorem mutations_keep_flags_boolean :
  forall (m : Mutation) (st : Store),
    FlagsBoolean st -> FlagsBoolean (mutate m st).
Proof.
  unfold FlagsBoolean.
  intros [now exercise | now key updates | now key | key] st F; simpl.
  - apply Forall_app. split; [exact F|]. constructor; [|constructor].
    simpl. destruct (new_is_favorited exercise); auto.
  - destruct (updateExercise_rows now key updates st) as [-> | ->];
      [exact F|].
    simpl. apply Forall_updated; [|exact F].
    intros r. apply setUpdates_flag.
  - apply Forall_updated; [|exact F].
    intros r [H | H]; simpl; rewrite H; simpl; auto.
  - apply Forall_forall. intros r Hr. apply filter_In in Hr.
    rewrite Forall_forall in F. now apply F.
Qed.

Lemma mutations_keep_flags_boolean_witness :
  FlagsBoolean
    (mutate (Update 600%Z 1%Z [(lit "is_favorited", JsStr (lit "false"))])
            twoExercises)
  /\ getExerciseById 1%Z
       (mutate (Update 600%Z 1%Z [(lit "is_favorited", JsStr (lit "false"))])
               twoExercises)
     = Some (setUpdates 600%Z [(lit "is_favorited", JsStr (lit "false"))] squat)
  /\ isFavorited
       (setUpdates 600%Z [(lit "is_favorited", JsStr (lit "false"))] squat)
     = true.
Proof.
  split; [|split; reflexivity].
  apply mutations_keep_flags_boolean.
  unfold FlagsBoolean. simpl.
  constructor; [left; reflexivity|].
  constructor; [right; reflexivity | constructor].
Defined.

Lemma toggle_toggle_row now1 now2 r :
  is_favorited r = Some 0%Z \/ is_favorited r = Some 1%Z ->
  setToggle now2 (setToggle now1 r) = setLastUpdated now2 r.
Proof.
  intros H. unfold setToggle, setLastUpdated. simpl.
  destruct H as [H | H]; rewrite H; reflexivity.
Qed.

(** X5.  On a table whose flags are 0 or 1, two toggles of an id leave the
    whole store as a mere stamp of [last_updated] on that id would: the
    column [is_favorited] itself is back, not only the boolean read from
    it. *)
Theorem toggle_twice_is_touch :
  forall (now1 now2 : timestamp) (key : Z) (st : Store),
    FlagsBoolean st ->
    snd (toggleFavorite now2 key (snd (toggleFavorite now1 key st)))
    = snd (updateWhereId (setLastUpdated now2) key st).
Proof.
  intros now1 now2 key st F. unfold toggleFavorite, updateWhereId. simpl.
  f_equal. rewrite map_map. apply map_ext_in. intros r Hr.
  unfold FlagsBoolean in F. rewrite Forall_forall in F. specialize (F r Hr).
  destruct (id r =? key)%Z eqn:E.
  - change (id (setToggle now1 r)) with (id r). rewrite E.
    now apply toggle_toggle_row.
  - now rewrite E.
Qed.

Lemma toggle_twice_is_touch_witness :
  rows (snd (toggleFavorite 300%Z 2%Z (snd (toggleFavorite 200%Z 2%Z twoExercises))))
  = [squat; setLastUpdated 300%Z lunge].
Proof.
  rewrite (@toggle_twice_is_touch 200%Z 300%Z 2%Z twoExercises).
  - reflexivity.
  - unfold FlagsBoolean. simpl.
    constructor; [left; reflexivity|].
    constructor; [right; reflexivity | constructor].
Defined.

(** ** The routes that read and delete one record *)

Lemma find_filter_other key k (l : list Row) :
  k <> key ->
  find (fun r => id r =? k)%Z (filter (fun r => negb (id r =? key)%Z) l)
  = find (fun r => id r =? k)%Z l.
Proof.
  intros H. induction l as [|a l IH]; simpl; [reflexivity|].
  destruct (Z.eqb_spec (id a) key) as [E|E]; simpl.
  - destruct (Z.eqb_spec (id a) k) as [E'|E']; [congruence | exact IH].
  - now rewrite IH.
Qed.

Lemma find_filter_same key (l : list Row) :
  find (fun r => id r =? key)%Z (filter (fun r => negb (id r =? key)%Z) l)
  = None.
Proof.
  apply find_none, Forall_forall. intros r Hr. apply filter_In in Hr.
  destruct Hr as [_ Hr]. now apply negb_true_iff in Hr.
Qed.

Lemma filter_unmatched key (l : list Row) :
  find (fun r => id r =? key)%Z l = None ->
  filter (fun r => negb (id r =? key)%Z) l = l.
Proof.
  induction l as [|a l IH]; simpl; [reflexivity|].
  destruct (id a =? key)%Z; [discriminate|]. simpl.
  intros H. now rewrite (IH H).
Qed.

Lemma deleteExercise_missing key st :
  getExerciseById key st = None ->
  Queries.deleteExercise key st = ({| changes := 0 |}, st).
Proof.
  unfold getExerciseById, Queries.deleteExercise. intros H.
  rewrite (filter_unmatched _ _ H), (proj2 (changes_zero key (rows st)) H).
  now destruct st.
Qed.

Lemma routeDeleteExercise_missing key st :
  getExerciseById key st = None ->
  routeDeleteExercise key st
  = (res_status_json 404 (DeleteError (lit "Exercise not found")), st).
Proof.
  intros G. unfold routeDeleteExercise.
  now rewrite (deleteExercise_missing _ _ G).
Qed.

Lemma routeDeleteExercise_existing key st r :
  getExerciseById key st = Some r ->
  routeDeleteExercise key st
  = (res_json (DeleteMessage (lit "Exercise deleted successfully")),
     {| rows := filter (fun r => negb (id r =? key)%Z) (rows st);
        seq := seq st |}).
Proof.
  intros G. unfold routeDeleteExercise, Queries.deleteExercise.
  cbn [changes].
  assert (C : (length (filter (fun r => id r =? key)%Z (rows st)) =? 0) = false).
  { apply Nat.eqb_neq. intros C. apply changes_zero in C.
    unfold getExerciseById in G. congruence. }
  now rewrite C.
Qed.

(** X6.  The delete route answers 404 and changes nothing when the id has
    no record.  Otherwise it answers 200, the id has no record afterwards
    (a read of it is answered 404, a second delete too, without a change),
    and the lookups of every other id are what they were. *)
Theorem delete_route_removes :
  forall (key : Z) (st : Store),
    let response := fst (routeDeleteExercise key st) in
    let st' := snd (routeDeleteExercise key st) in
    match getExerciseById key st with
    | None =>
        response = res_status_json 404 (DeleteError (lit "Exercise not found"))
        /\ st' = st
    | Some _ =>
        response = res_json (DeleteMessage (lit "Exercise deleted successfully"))
        /\ getExerciseById key st' = None
        /\ (forall k, k <> key -> getExerciseById k st' = getExerciseById k st)
        /\ seq st' = seq st
        /\ routeGetExercise key st'
           = res_status_json 404 (ErrorBody (lit "Exercise not found"))
        /\ routeDeleteExercise key st'
           = (res_status_json 404 (DeleteError (lit "Exercise not found")), st')
    end.
Proof.
  intros key st response st'. subst response st'.
  destruct (getExerciseById key st) as [r|] eqn:G.
  - rewrite (routeDeleteExercise_existing _ _ G). cbn [fst snd].
    assert (N : getExerciseById key
                  {| rows := filter (fun r => negb (id r =? key)%Z) (rows st);
                     seq := seq st |} = None)
      by apply find_filter_same.
    split; [reflexivity|]. split; [exact N|]. split; [|split; [reflexivity|]].
    + intros k Hk. now apply find_filter_other.
    + split.
      * unfold routeGetExercise. now rewrite N.
      * now apply routeDeleteExercise_missing.
  - rewrite (routeDeleteExercise_missing _ _ G). simpl. auto.
Qed.

(** X7.  Reading after writing: what the toggle route answers is what a
    read of the same id answers on the store it leaves, and so for the
    update route whenever it does not answer 500. *)
Theorem read_after_write :
  forall (now : timestamp) (key : Z) (updates : list (jsstring * JsValue))
         (st : Store),
    fst (patchFavorite now key st)
    = routeGetExercise key (snd (patchFavorite now key st))
    /\ (status (fst (putExercise now key updates st)) <> 500 ->
        fst (putExercise now key updates st)
        = routeGetExercise key (snd (putExercise now key updates st))).
Proof.
  intros now key updates st. split.
  - destruct (getExerciseById key st) as [r|] eqn:G.
    + destruct (patchFavorite_existing now key st G) as [P G'].
      rewrite P. cbn [fst snd]. unfold routeGetExercise. now rewrite G'.
    + unfold patchFavorite, toggleFavorite.
      rewrite (updateWhereId_missing (setToggle now) _ _ G). simpl.
      unfold routeGetExercise. now rewrite G.
  - unfold putExercise, updateExercise.
    destruct (length (keptFields updates) =? 0); [simpl; congruence|].
    intros _.
    destruct (getExerciseById key st) as [r|] eqn:G.
    + pose proof (updateWhereId_changes
                    (setUpdates now (keptFields updates)) _ _ G) as C.
      pose proof (getExerciseById_updated
                    (setUpdates now (keptFields updates))
                    (setUpdates_id now (keptFields updates)) key st) as G'.
      rewrite G in G'.
      destruct (updateWhereId (setUpdates now (keptFields updates)) key st)
        as [result st1].
      simpl in *. rewrite C, G'. simpl. unfold routeGetExercise.
      now rewrite G'.
    + rewrite (updateWhereId_missing _ _ _ G). simpl.
      unfold routeGetExercise. now rewrite G.
Qed.

Lemma read_after_write_witness :
  fst (putExercise 600%Z 2%Z [(lit "muscle", JsStr (lit "glutes"))] twoExercises)
  = routeGetExercise 2%Z
      (snd (putExercise 600%Z 2%Z [(lit "muscle", JsStr (lit "glutes"))]
              twoExercises)).
Proof.
  apply (proj2 (read_after_write 600%Z 2%Z
                  [(lit "muscle", JsStr (lit "glutes"))] twoExercises)).
  discriminate.
Defined.

(** ** Creation through the route *)







(** ** Update through the route *)


Section AssignFrame.

Variable A : Type.
Variable view : Row -> A.
Variable col : string.
Hypothesis view_assign :
  forall key value r, keyIs key col = false -> view (assign key value r) = view r.


End AssignFrame.






(** X11.  A [PUT] whose body names none of the seven columns (the empty
    body too) is answered 500 "No valid fields to update" and changes
    nothing, whether the id has a record or not. *)
Theorem put_without_columns :
  forall (now : timestamp) (key : Z) (updates : list (jsstring * JsValue))
         (st : Store),
    Forall (fun kv => isAllowed (fst kv) = false) updates ->
    putExercise now key updates st
    = (res_status_json 500 (ErrorBody (lit "No valid fields to update")), st).
Proof.
  intros now key updates st H.
  assert (K : keptFields updates = []).
  { unfold keptFields. induction H as [|kv l Hk Hl IH]; simpl; [reflexivity|].
    now rewrite Hk. }
  unfold putExercise, updateExercise. now rewrite K.
Qed.

Lemma put_without_columns_witness :
  putExercise 600%Z 9%Z [(lit "name", JsStr (lit "Squat")); (lit "id", JsStr (lit "1"))]
    twoExercises
  = (res_status_json 500 (ErrorBody (lit "No valid fields to update")),
     twoExercises).
Proof.
  apply put_without_columns. repeat constructor.
Defined.

Lemma putExercise_existing now key updates st r :
  getExerciseById key st = Some r ->
  keptFields updates <> [] ->
  let r' := setUpdates now (keptFields updates) r in
  let st' := snd (updateWhereId (setUpdates now (keptFields updates)) key st) in
  putExercise now key updates st = (res_json (RecordBody (transform r')), st')
  /\ getExerciseById key st' = Some r'.
Proof.
  intros G K r' st'.
  assert (G' : getExerciseById key st' = Some r').
  { subst st'.
    rewrite (getExerciseById_updated _ (setUpdates_id now (keptFields updates))), G.
    reflexivity. }
  split; [|exact G'].
  unfold putExercise, updateExercise.
  destruct (keptFields updates) as [|kv fields] eqn:E; [contradiction|].
  cbn [length Nat.eqb].
  pose proof (updateWhereId_changes (setUpdates now (kv :: fields)) _ _ G) as C.
  subst st' r'.
  destruct (updateWhereId (setUpdates now (kv :: fields)) key st)
    as [result st1].
  cbn [fst snd] in *. now rewrite C, G'.
Qed.

(** X12.  The body the edit form of the page sends names the name and the
    type [name] and [type], which are not columns: the update it asks for is
    answered 200 and stores the muscle, equipment, difficulty and
    instructions of the form, but the name and the type of the record stay
    what they were. *)
Theorem edit_form_cannot_rename :
  forall (now : timestamp) (key : Z) (nm ty mu eq di ins : jsstring)
         (st : Store) (r : Row),
    getExerciseById key st = Some r ->
    let st' := snd (putExercise now key (Frontend.formBody nm ty mu eq di ins) st) in
    exists r',
      fst (putExercise now key (Frontend.formBody nm ty mu eq di ins) st)
      = res_json (RecordBody (transform r'))
      /\ getExerciseById key st' = Some r'
      /\ exercise_name r' = exercise_name r
      /\ exercise_type r' = exercise_type r
      /\ muscle r' = mu
      /\ equipment r' = eq
      /\ difficulty r' = di
      /\ instructions r' = ins
      /\ is_favorited r' = is_favorited r.
Proof.
  intros now key nm ty mu eq di ins st r G st'.
  assert (K : keptFields (Frontend.formBody nm ty mu eq di ins)
              = [(lit "muscle", JsStr mu); (lit "equipment", JsStr eq);
                 (lit "difficulty", JsStr di); (lit "instructions", JsStr ins)])
    by reflexivity.
  destruct (@putExercise_existing now key
              (Frontend.formBody nm ty mu eq di ins) st r G) as [P G'].
  { rewrite K. discriminate. }
  subst st'. rewrite P. cbn [fst snd]. rewrite K in *.
  eexists. split; [reflexivity|]. split; [exact G'|].
  repeat split; reflexivity.
Qed.

Lemma edit_form_cannot_rename_witness :
  exists r',
    getExerciseById 2%Z
      (snd (putExercise 600%Z 2%Z
              (Frontend.formBody (lit "Walking Lunge") (lit "cardio")
                 (lit "glutes") (lit "dumbbell") (lit "expert") (lit "Walk."))
              twoExercises))
    = Some r'
    /\ exercise_name r' = lit "Lunge"
    /\ muscle r' = lit "glutes".
Proof.
  destruct (@edit_form_cannot_rename 600%Z 2%Z (lit "Walking Lunge")
              (lit "cardio") (lit "glutes") (lit "dumbbell") (lit "expert")
              (lit "Walk.") twoExercises lunge eq_refl)
    as [r' [_ [G [N [_ [M _]]]]]].
  exists r'. split; [exact G|]. split; [exact N | exact M].
Defined.

(** ** Counts and statistics *)

Lemma textEq_true a b : Queries.textEq a b = true <-> a = b.
Proof.
  unfold Queries.textEq. destruct (list_eq_dec ascii_dec a b); split;
    auto; discriminate.
Qed.

Lemma favoritedIs_isFavorited r : Queries.favoritedIs true r = isFavorited r.
Proof.
  unfold Queries.favoritedIs, isFavorited.
  destruct (is_favorited r) as [[|[p|p|]|p]|]; reflexivity.
Qed.

Lemma count_all st :
  Queries.getExerciseCount Queries.noFilters st = length (rows st).
Proof.
  unfold Queries.getExerciseCount.
  rewrite (filter_ext (Queries.whereCount Queries.noFilters) (fun _ => true))
    by reflexivity.
  induction (rows st) as [|a l IH]; simpl; [reflexivity | now rewrite IH].
Qed.

Lemma count_favorited st :
  Queries.getExerciseCount favoritedOnly st
  = length (filter isFavorited (rows st)).
Proof.
  unfold Queries.getExerciseCount.
  erewrite filter_ext; [reflexivity|]. intros r.
  unfold Queries.whereCount. simpl. apply favoritedIs_isFavorited.
Qed.

Lemma count_muscle m st :
  m <> [] ->
  Queries.getExerciseCount (withMuscle m None) st = rowsOfMuscle m st.
Proof.
  intros H. unfold Queries.getExerciseCount, rowsOfMuscle.
  erewrite filter_ext; [reflexivity|]. intros r. unfold Queries.whereCount.
  destruct m as [|c m]; [contradiction|]. simpl. now rewrite andb_true_r.
Qed.

Lemma filter_length_le {A} (p : A -> bool) l : length (filter p l) <= length l.
Proof.
  induction l as [|a l IH]; simpl; [lia|]. destruct (p a); simpl; lia.
Qed.

Lemma countMuscles_flat_map muscles st acc :
  fold_left
    (fun stats muscle =>
       let count := Queries.getExerciseCount (withMuscle muscle None) st in
       if 0 <? count then stats ++ [(muscle, count)] else stats)
    muscles acc
  = acc ++ flat_map
             (fun muscle =>
                let count := Queries.getExerciseCount (withMuscle muscle None) st in
                if 0 <? count then [(muscle, count)] else [])
             muscles.
Proof.
  revert acc. induction muscles as [|m ms IH]; intros acc; simpl.
  - now rewrite app_nil_r.
  - rewrite IH.
    destruct (0 <? Queries.getExerciseCount (withMuscle m None) st);
      [now rewrite <- app_assoc | reflexivity].
Qed.

Lemma filter_or_disjoint {A} (p q : A -> bool) l :
  (forall x, p x = true -> q x = true -> False) ->
  length (filter (fun x => p x || q x) l)
  = length (filter p l) + length (filter q l).
Proof.
  intros D. induction l as [|a l IH]; simpl; [reflexivity|].
  destruct (p a) eqn:P, (q a) eqn:Q; simpl; rewrite IH; try lia.
  exfalso. exact (D a P Q).
Qed.

Lemma sum_of_groups (ms : list jsstring) (l : list Row) :
  NoDup ms ->
  list_sum (map (fun m => length (filter (fun r => Queries.textEq (muscle r) m) l)) ms)
  = length (filter (fun r => existsb (Queries.textEq (muscle r)) ms) l).
Proof.
  induction 1 as [|m ms Hm Hn IH]; simpl.
  - induction l as [|a l IHl]; simpl; [reflexivity | exact IHl].
  - rewrite IH. symmetry. apply filter_or_disjoint.
    intros r P Q. apply textEq_true in P. apply existsb_exists in Q.
    destruct Q as [m' [Hi Q]]. apply textEq_true in Q. congruence.
Qed.

Lemma flat_map_agree {A B} (f g : A -> list B) l :
  (forall x, In x l -> f x = g x) -> flat_map f l = flat_map g l.
Proof.
  induction l as [|a l IH]; simpl; [reflexivity|].
  intros H. rewrite (H a) by now left. rewrite IH; [reflexivity|].
  intros x Hx. apply H. now right.
Qed.

Lemma statsMuscles_distinct : NoDup statsMuscles.
Proof.
  unfold statsMuscles.
  repeat (constructor;
          [simpl; intros H;
           repeat (destruct H as [H | H]; [discriminate H|]); exact H|]).
  constructor.
Qed.

Lemma statsMuscles_nonempty m : In m statsMuscles -> m <> [].
Proof.
  unfold statsMuscles. simpl. intros H.
  repeat (destruct H as [<- | H]; [discriminate|]). contradiction.
Qed.

Lemma routeStats_figures st :
  total (body (routeStats st)) = length (rows st)
  /\ favorites (body (routeStats st)) = length (filter isFavorited (rows st))
  /\ byMuscle (body (routeStats st))
     = flat_map (fun m => if 0 <? rowsOfMuscle m st
                          then [(m, rowsOfMuscle m st)] else [])
                statsMuscles.
Proof.
  unfold routeStats. cbn [res_json body total favorites byMuscle].
  rewrite count_all, count_favorited.
  split; [reflexivity|]. split; [reflexivity|].
  unfold countMuscles. rewrite countMuscles_flat_map. cbn [app].
  apply flat_map_agree.
  intros m Hm. cbv zeta. rewrite count_muscle; [reflexivity|].
  now apply statsMuscles_nonempty.
Qed.

(** X13.  The statistics route answers 200 with the number of rows as
    [total] and at most that many [favorites].  [byMuscle] holds, in the
    order of the route's list, exactly the muscles of the list that have
    rows, each with its number of rows; its counts add up to the number of
    rows whose muscle is in the list, so a row of another muscle is counted
    in [total] only. *)
Theorem stats_route_counts :
  forall (st : Store),
    let b := body (routeStats st) in
    status (routeStats st) = 200
    /\ total b = length (rows st)
    /\ favorites b = length (filter isFavorited (rows st))
    /\ favorites b <= total b
    /\ byMuscle b
       = flat_map (fun m => if 0 <? rowsOfMuscle m st
                            then [(m, rowsOfMuscle m st)] else [])
                  statsMuscles
    /\ (forall m n, In (m, n) (byMuscle b) <->
                    In m statsMuscles /\ n = rowsOfMuscle m st /\ 0 < n)
    /\ list_sum (map snd (byMuscle b))
       = length (filter inStatsMuscles (rows st)).
Proof.
  intros st b. subst b.
  destruct (routeStats_figures st) as [T [F B]]. rewrite T, F, B.
  split; [reflexivity|]. split; [reflexivity|]. split; [reflexivity|].
  split; [apply filter_length_le|]. split; [reflexivity|]. split.
  - intros m n. rewrite in_flat_map. split.
    + intros [m' [Hm H]].
      destruct (0 <? rowsOfMuscle m' st) eqn:E; [|contradiction].
      destruct H as [[= <- <-] | []]. apply Nat.ltb_lt in E. auto.
    + intros [Hm [-> Hn]]. exists m. split; [exact Hm|].
      apply Nat.ltb_lt in Hn. rewrite Hn. now left.
  - unfold inStatsMuscles. unfold rowsOfMuscle.
    rewrite <- (sum_of_groups (rows st) statsMuscles_distinct).
    generalize statsMuscles. intros ms.
    induction ms as [|m ms IH]; [reflexivity|].
    cbn [flat_map map list_sum]. rewrite map_app, list_sum_app, IH.
    destruct (length (filter (fun r => Queries.textEq (muscle r) m) (rows st)))
      as [|k] eqn:E; simpl; lia.
Qed.

Lemma patchFavorite_store now key st :
  snd (patchFavorite now key st) = snd (toggleFavorite now key st).
Proof.
  unfold patchFavorite.
  destruct (toggleFavorite now key st) as [result st1]. cbn [snd].
  destruct (changes result =? 0); [reflexivity|].
  now destruct (getExerciseById key st1).
Qed.

Lemma filter_updated_same (p : Row -> bool) (set : Row -> Row) key (l : list Row) :
  (forall r, p (set r) = p r) ->
  length (filter p (map (fun r => if (id r =? key)%Z then set r else r) l))
  = length (filter p l).
Proof.
  intros H. induction l as [|a l IH]; simpl; [reflexivity|].
  destruct (id a =? key)%Z; [rewrite H|]; destruct (p a); simpl; now rewrite IH.
Qed.

Lemma favorites_after_toggle now key (l : list Row) r :
  NoDup (map id l) ->
  find (fun r => id r =? key)%Z l = Some r ->
  length (filter isFavorited
            (map (fun r => if (id r =? key)%Z then setToggle now r else r) l))
  + (if isFavorited r then 1 else 0)
  = length (filter isFavorited l) + (if isFavorited r then 0 else 1).
Proof.
  induction l as [|a l IH]; simpl; [discriminate|].
  intros U F. inversion U as [|? ? Hn Hl]; subst.
  destruct (Z.eqb_spec (id a) key) as [E|E].
  - injection F as <-.
    rewrite map_unmatched.
    + rewrite isFavorited_toggled. destruct (isFavorited a); simpl; lia.
    + apply find_absent_id. intros r Hr E'. apply Hn.
      apply in_map_iff. exists r. split; [congruence | exact Hr].
  - specialize (IH Hl F).
    destruct (isFavorited a); simpl; lia.
Qed.

(** X14.  On a table of distinct ids, a toggle of an existing record moves
    the [favorites] of the statistics by exactly one, up when the record was
    not a favorite and down when it was, and leaves [total] and [byMuscle]
    as they were. *)
Theorem toggle_moves_favorites_count :
  forall (now : timestamp) (key : Z) (st : Store) (r : Row),
    UniqueIds st ->
    getExerciseById key st = Some r ->
    let before := body (routeStats st) in
    let after := body (routeStats (snd (patchFavorite now key st))) in
    total after = total before
    /\ byMuscle after = byMuscle before
    /\ (isFavorited r = false -> favorites after = S (favorites before))
    /\ (isFavorited r = true -> S (favorites after) = favorites before).
Proof.
  intros now key st r U G before after. subst before after.
  rewrite patchFavorite_store.
  destruct (routeStats_figures st) as [T [F B]].
  destruct (routeStats_figures (snd (toggleFavorite now key st)))
    as [T' [F' B']].
  rewrite T, T', F, F', B, B'.
  cbn [toggleFavorite updateWhereId snd rows].
  split; [apply length_map|]. split.
  - apply flat_map_ext. intros m. unfold rowsOfMuscle.
    cbn [toggleFavorite updateWhereId snd rows].
    now rewrite filter_updated_same.
  - pose proof (favorites_after_toggle now key (rows st) U G) as H.
    split; intros E; rewrite E in H; lia.
Qed.

Lemma toggle_moves_favorites_count_witness :
  favorites (body (routeStats twoExercises)) = 1
  /\ favorites (body (routeStats (snd (patchFavorite 200%Z 1%Z twoExercises)))) = 2.
Proof.
  split; [reflexivity|].
  refine (proj1 (proj2 (proj2 (@toggle_moves_favorites_count 200%Z 1%Z
                                  twoExercises squat _ eq_refl))) eq_refl).
  unfold UniqueIds. simpl. repeat constructor; simpl.
  - intros [H | []]. discriminate H.
  - intros [].
Defined.

(** ** The pattern of a search *)







(** ** The order of the names *)

Lemma nameLeb_total a b :
  Queries.nameLeb a b = false -> Queries.nameLeb b a = true.
Proof.
  revert b. induction a as [|x a IH]; intros [|y b]; simpl; try discriminate;
    try reflexivity.
  intros H. apply orb_false_iff in H. destruct H as [H1 H2].
  apply Nat.ltb_ge in H1.
  destruct (Nat.eqb_spec (code x) (code y)) as [E|E].
  - simpl in H2. rewrite (IH _ H2), E, Nat.eqb_refl. apply orb_true_r.
  - assert (L : code y < code x) by lia.
    apply Nat.ltb_lt in L. now rewrite L.
Qed.

Lemma nameLeb_trans a b c :
  Queries.nameLeb a b = true -> Queries.nameLeb b c = true ->
  Queries.nameLeb a c = true.
Proof.
  revert b c. induction a as [|x a IH]; intros [|y b] [|z c]; simpl;
    try discriminate; try reflexivity.
  intros H1 H2.
  apply orb_true_iff in H1. apply orb_true_iff in H2. apply orb_true_iff.
  destruct H1 as [H1 | H1], H2 as [H2 | H2].
  - left. apply Nat.ltb_lt in H1, H2. apply Nat.ltb_lt. lia.
  - apply andb_true_iff in H2. destruct H2 as [E _].
    apply Nat.eqb_eq in E. left. now rewrite <- E.
  - apply andb_true_iff in H1. destruct H1 as [E _].
    apply Nat.eqb_eq in E. left. now rewrite E.
  - apply andb_true_iff in H1, H2. destruct H1 as [E1 L1], H2 as [E2 L2].
    apply Nat.eqb_eq in E1, E2. right.
    rewrite E1, E2, Nat.eqb_refl. simpl. exact (IH _ _ L1 L2).
Qed.

Lemma insertByName_perm r l : Permutation (insertByName r l) (r :: l).
Proof.
  induction l as [|a l IH]; simpl; [reflexivity|].
  destruct (Queries.nameLeb (exercise_name r) (exercise_name a));
    [reflexivity|].
  rewrite IH. apply perm_swap.
Qed.

Lemma sortByName_perm l : Permutation (sortByName l) l.
Proof.
  induction l as [|a l IH]; simpl; [reflexivity|].
  rewrite insertByName_perm. now constructor.
Qed.

Lemma insertByName_sorted r l :
  SortedByName l -> SortedByName (insertByName r l).
Proof.
  unfold SortedByName. induction 1 as [|a l S IH F]; simpl.
  - repeat constructor.
  - destruct (Queries.nameLeb (exercise_name r) (exercise_name a)) eqn:E.
    + constructor; [now constructor|]. constructor; [exact E|].
      revert F. apply Forall_impl. intros b. now apply nameLeb_trans.
    + constructor; [exact IH|].
      apply (Permutation_Forall (Permutation_sym (insertByName_perm r l))).
      constructor; [now apply nameLeb_total | exact F].
Qed.

Lemma sortByName_sorted l : SortedByName (sortByName l).
Proof.
  induction l as [|a l IH]; simpl; [constructor|].
  now apply insertByName_sorted.
Qed.

Lemma In_firstn {A} n (l : list A) x : In x (firstn n l) -> In x l.
Proof.
  revert n. induction l as [|a l IH]; intros [|n]; simpl; try contradiction.
  intros [H | H]; [now left | right; exact (IH _ H)].
Qed.

Lemma In_skipn {A} n (l : list A) x : In x (skipn n l) -> In x l.
Proof.
  revert n. induction l as [|a l IH]; intros [|n]; simpl; trivial.
  intros H. right. exact (IH _ H).
Qed.

Lemma sorted_firstn n l : SortedByName l -> SortedByName (firstn n l).
Proof.
  unfold SortedByName. intros S. revert n.
  induction S as [|a l S IH F]; intros [|n]; simpl; try constructor.
  - apply IH.
  - rewrite Forall_forall in *. intros b Hb. apply F.
    exact (In_firstn _ _ _ Hb).
Qed.

Lemma sorted_skipn n l : SortedByName l -> SortedByName (skipn n l).
Proof.
  unfold SortedByName. intros S. revert n.
  induction S as [|a l S IH F]; intros [|n]; simpl; try constructor; trivial.
Qed.

(** ** The routes that list records *)

Lemma unique_row (l : list Row) r t :
  NoDup (map id l) -> In r l -> In t l -> id t = id r -> t = r.
Proof.
  induction l as [|a l IH]; simpl; [contradiction|].
  intros U Hr Ht E. inversion U as [|? ? Hn Hl]; subst.
  destruct Hr as [-> | Hr], Ht as [-> | Ht]; trivial.
  - exfalso. apply Hn. rewrite <- E. now apply in_map.
  - exfalso. apply Hn. rewrite E. now apply in_map.
  - now apply IH.
Qed.

Lemma whereExercises_muscle m limit r :
  m <> [] ->
  Queries.whereExercises (withMuscle m limit) r = Queries.textEq (muscle r) m.
Proof.
  intros H. destruct m as [|c m]; [contradiction|].
  unfold Queries.whereExercises. simpl. now rewrite !andb_true_r.
Qed.

Lemma muscleGroups_nonempty : Forall (fun m => m <> []) muscleGroups.
Proof. unfold muscleGroups. repeat constructor; discriminate. Qed.

Lemma flat_map_firstn_length {A B} n (g : A -> list B) l :
  length (flat_map (fun x => firstn n (g x)) l) <= n * length l.
Proof.
  induction l as [|a l IH]; simpl; [lia|].
  rewrite length_app. pose proof (firstn_le_length n (g a)). lia.
Qed.

Section Ordered.

Variable orderByName : list Row -> list Row.
Hypothesis orderBy_perm : forall l, Permutation (orderByName l) l.
Hypothesis orderBy_sorted : forall l, SortedByName (orderByName l).

Lemma In_ordered r l : In r (orderByName l) <-> In r l.
Proof.
  split; apply Permutation_in;
    [apply orderBy_perm | apply Permutation_sym, orderBy_perm].
Qed.

Lemma ordered_In r l : In r (orderByName l) -> In r l.
Proof. apply In_ordered. Qed.

Lemma length_ordered l : length (orderByName l) = length l.
Proof. apply Permutation_length, orderBy_perm. Qed.

Lemma In_favorites r st :
  In r (Queries.getFavorites orderByName st)
  <-> In r (rows st) /\ isFavorited r = true.
Proof.
  unfold Queries.getFavorites.
  now rewrite In_ordered, filter_In, favoritedIs_isFavorited.
Qed.

(** X16.  The favorites route answers 200 with exactly the records whose
    flag is 1, each once, in the order of their names; their number is the
    [favorites] of the statistics, and the [is_favorited: true] the route
    writes into every one of them is what a read of the record answers. *)
Theorem favorites_route_lists :
  forall (st : Store),
    let favs := Queries.getFavorites orderByName st in
    routeFavorites orderByName st = res_json (ListOf (map transform favs))
    /\ (forall r, In r favs <-> In r (rows st) /\ isFavorited r = true)
    /\ Permutation favs (filter isFavorited (rows st))
    /\ length favs = favorites (body (routeStats st))
    /\ SortedByName favs.
Proof.
  intros st favs.
  assert (P : Permutation favs (filter isFavorited (rows st))).
  { subst favs. unfold Queries.getFavorites.
    rewrite (filter_ext _ _ favoritedIs_isFavorited). apply orderBy_perm. }
  split; [|split; [intros r; apply In_favorites|split; [exact P|split]]].
  - unfold routeFavorites. fold favs. do 2 f_equal.
    apply map_ext_in. intros r Hr. apply In_favorites in Hr.
    destruct Hr as [_ Hr]. unfold transform, transformFavorite.
    now rewrite Hr.
  - rewrite (Permutation_length P).
    now destruct (routeStats_figures st) as [_ [-> _]].
  - apply orderBy_sorted.
Qed.

Lemma In_favorite_ids k st :
  In k (map id (Queries.getFavorites orderByName st))
  <-> exists t, In t (rows st) /\ id t = k /\ isFavorited t = true.
Proof.
  rewrite in_map_iff. split.
  - intros [t [E H]]. apply In_favorites in H. exists t. tauto.
  - intros [t [H [E F]]]. exists t. split; [exact E|].
    apply In_favorites. tauto.
Qed.

(** X17.  On a table of distinct ids, after a toggle of an existing record
    the favorites route lists that record exactly when it was not a
    favorite before, and lists every other id exactly when it did. *)
Theorem toggle_enters_or_leaves_favorites :
  forall (now : timestamp) (key : Z) (st : Store) (r : Row),
    UniqueIds st ->
    getExerciseById key st = Some r ->
    let st' := snd (patchFavorite now key st) in
    (In key (map id (Queries.getFavorites orderByName st'))
     <-> isFavorited r = false)
    /\ (forall k, k <> key ->
          (In k (map id (Queries.getFavorites orderByName st'))
           <-> In k (map id (Queries.getFavorites orderByName st)))).
Proof.
  intros now key st r U G st'. subst st'. rewrite patchFavorite_store.
  unfold getExerciseById in G. apply find_some in G.
  destruct G as [Hr Hk]. apply Z.eqb_eq in Hk.
  unfold toggleFavorite. cbn [updateWhereId snd].
  split.
  - rewrite In_favorite_ids. cbn [rows]. split.
    + intros [t' [Ht' [E F]]]. apply in_map_iff in Ht'.
      destruct Ht' as [t [<- Ht]].
      destruct (Z.eqb_spec (id t) key) as [E'|E'].
      * assert (t = r)
          by (apply (@unique_row (rows st) r t U Hr Ht); congruence).
        subst t. rewrite isFavorited_toggled in F.
        now apply negb_true_iff in F.
      * congruence.
    + intros F. exists (setToggle now r). split; [|split].
      * apply in_map_iff. exists r. split; [|exact Hr].
        apply Z.eqb_eq in Hk. now rewrite Hk.
      * exact Hk.
      * rewrite isFavorited_toggled, F. reflexivity.
  - intros k Hk'. rewrite !In_favorite_ids. cbn [rows]. split.
    + intros [t' [Ht' [E F]]]. apply in_map_iff in Ht'.
      destruct Ht' as [t [<- Ht]].
      destruct (Z.eqb_spec (id t) key) as [E'|E'].
      * simpl in E. congruence.
      * now exists t.
    + intros [t [Ht [E F]]]. exists t. split; [|tauto].
      apply in_map_iff. exists t. split; [|exact Ht].
      destruct (Z.eqb_spec (id t) key) as [E'|E']; [congruence | reflexivity].
Qed.

(** X18.  [getExercises] gives rows of the table that pass the filters, in
    the order of their names.  A [limit] of 0 is no limit: like an absent
    one it gives every such row.  With a limit above 0 it gives at most that
    many.  An [offset] above 0 without a limit above 0 makes the call fail,
    whatever the other filters. *)
Theorem getExercises_limit_and_offset :
  forall (filters : Queries.Filters) (st : Store),
    let selected := filter (Queries.whereExercises filters) (rows st) in
    let result := Queries.getExercises orderByName filters st in
    let no_limit := Queries.f_limit filters = None
                    \/ Queries.f_limit filters = Some 0 in
    let no_offset := Queries.f_offset filters = None
                     \/ Queries.f_offset filters = Some 0 in
    (no_limit -> no_offset ->
     exists l, result = Some l /\ Permutation l selected)
    /\ (no_limit -> ~ no_offset -> result = None)
    /\ (forall n, Queries.f_limit filters = Some (S n) ->
          exists l, result = Some l /\ length l <= S n)
    /\ (forall l, result = Some l ->
          SortedByName l
          /\ forall r, In r l ->
               In r (rows st) /\ Queries.whereExercises filters r = true).
Proof.
  intros filters st selected result no_limit no_offset.
  subst result no_limit no_offset. unfold Queries.getExercises. fold selected.
  split; [|split; [|split]].
  - intros [-> | ->] [-> | ->]; cbn [Queries.positive];
      exists (orderByName selected); split; trivial; apply orderBy_perm.
  - intros L O.
    destruct (Queries.f_offset filters) as [[|k]|]; try (exfalso; tauto).
    now destruct L as [-> | ->].
  - intros n ->. cbn [Queries.positive].
    destruct (Queries.positive (Queries.f_offset filters));
      eexists; (split; [reflexivity|]); apply firstn_le_length.
  - intros l H.
    assert (I : forall r, In r (orderByName selected) ->
                          In r (rows st) /\ Queries.whereExercises filters r = true).
    { intros r Hr. apply ordered_In in Hr. now apply filter_In in Hr. }
    destruct (Queries.positive (Queries.f_limit filters)) as [limit|],
             (Queries.positive (Queries.f_offset filters)) as [offset|];
      try discriminate; injection H as <-.
    + split; [apply sorted_firstn, sorted_skipn, orderBy_sorted|].
      intros r Hr. apply I. exact (In_skipn _ _ _ (In_firstn _ _ _ Hr)).
    + split; [apply sorted_firstn, orderBy_sorted|].
      intros r Hr. apply I. exact (In_firstn _ _ _ Hr).
    + split; [apply orderBy_sorted | exact I].
Qed.

Lemma collectGroups_spec groups acc st :
  Forall (fun m => m <> []) groups ->
  collectGroups orderByName groups acc st
  = Some (acc ++ flat_map
                   (fun m =>
                      firstn 10
                        (orderByName
                           (filter (fun r => Queries.textEq (muscle r) m)
                                   (rows st))))
                   groups).
Proof.
  intros H. revert acc. induction H as [|m groups Hm Hg IH]; intros acc.
  - simpl. now rewrite app_nil_r.
  - cbn [collectGroups]. unfold Queries.getExercises.
    cbn [withMuscle Queries.f_limit Queries.f_offset Queries.positive].
    rewrite IH. cbn [flat_map]. rewrite <- app_assoc.
    rewrite (filter_ext _ _ (fun r => whereExercises_muscle (Some 10) r Hm)).
    reflexivity.
Qed.

(** X19.  None of the six calls of [getExercises] the list route makes is
    rejected (each has a limit and no offset), so the route answers 200 from
    the table and does not reach its fallback, whatever the exercise API
    would answer: at most 60 records, all of them rows of the table whose
    muscle is one of the six groups of the route. *)
Theorem list_route_bounded :
  forall (api : jsstring -> ApiOutcome) (st : Store),
    exists l,
      routeList orderByName api st = res_json (ListOf (map transform l))
      /\ length l <= 60
      /\ (forall r, In r l -> In r (rows st) /\ In (muscle r) muscleGroups).
Proof.
  intros api st. unfold routeList.
  rewrite (collectGroups_spec [] st muscleGroups_nonempty). cbn [app].
  eexists. split; [reflexivity|]. split.
  - pose proof (flat_map_firstn_length 10
                  (fun m => orderByName
                              (filter (fun r => Queries.textEq (muscle r) m)
                                      (rows st)))
                  muscleGroups) as L.
    exact L.
  - intros r Hr. apply in_flat_map in Hr. destruct Hr as [m [Hm Hr]].
    apply In_firstn, ordered_In, filter_In in Hr. destruct Hr as [Hr E].
    apply textEq_true in E. subst m. auto.
Qed.


End Ordered.

Lemma twoExercises_unique : UniqueIds twoExercises.
Proof.
  unfold UniqueIds. simpl. repeat constructor; simpl.
  - intros [H | []]. discriminate H.
  - intros [].
Qed.

Lemma favorites_route_lists_witness :
  routeFavorites sortByName twoExercises
  = res_json (ListOf [transform lunge]).
Proof.
  exact (proj1 (@favorites_route_lists sortByName sortByName_perm
                  sortByName_sorted twoExercises)).
Defined.

Lemma toggle_enters_or_leaves_favorites_witness :
  In 1%Z (map id (Queries.getFavorites sortByName
                    (snd (patchFavorite 200%Z 1%Z twoExercises)))).
Proof.
  apply (proj1 (@toggle_enters_or_leaves_favorites sortByName sortByName_perm
                  200%Z 1%Z twoExercises squat twoExercises_unique eq_refl)).
  reflexivity.
Defined.

Lemma getExercises_limit_and_offset_witness :
  Queries.getExercises sortByName
    {| Queries.f_name := None; Queries.f_muscle := Some (lit "quadriceps");
       Queries.f_type := None; Queries.f_difficulty := None;
       Queries.f_is_favorited := None; Queries.f_limit := Some 0;
       Queries.f_offset := Some 1 |} twoExercises
  = None.
Proof.
  apply (proj1 (proj2 (@getExercises_limit_and_offset sortByName
                         sortByName_perm sortByName_sorted _ twoExercises))).
  - now right.
  - intros [H | H]; discriminate H.
Defined.

Lemma list_route_bounded_witness :
  exists l,
    routeList sortByName (fun _ => inl (lit "Network Error")) twoExercises
    = res_json (ListOf (map transform l))
    /\ length l <= 60.
Proof.
  destruct (@list_route_bounded sortByName sortByName_perm
              (fun _ => inl (lit "Network Error")) twoExercises)
    as [l [H [L _]]].
  exists l. split; [exact H | exact L].
Defined.


(** ** The pagination of the page *)

Lemma totalPages_nat l k :
  Frontend.totalPages {| Frontend.allExercises := l; Frontend.currentPage := k |}
  = Z.of_nat ((length l + 9) / 10).
Proof.
  unfold Frontend.totalPages, Frontend.ITEMS_PER_PAGE. cbn [Frontend.allExercises].
  rewrite Nat2Z.inj_div, Nat2Z.inj_add. f_equal. lia.
Qed.

(** A page, counted in naturals. *)
Lemma pageExercises_nat l k :
  Frontend.pageExercises
    {| Frontend.allExercises := l; Frontend.currentPage := Z.of_nat (S k) |}
  = firstn 10 (skipn (k * 10) l).
Proof.
  unfold Frontend.pageExercises, Frontend.slice, Frontend.relativeIndex,
    Frontend.ITEMS_PER_PAGE.
  cbn [Frontend.allExercises Frontend.currentPage].
  replace ((Z.of_nat (S k) - 1) * 10)%Z with (Z.of_nat (k * 10)) by lia.
  set (s := k * 10). set (len := length l).
  destruct (Z.ltb_spec (Z.of_nat s) 0) as [H|_]; [lia|].
  destruct (Z.ltb_spec (Z.of_nat s + 10) 0) as [H|_]; [lia|].
  destruct (Nat.le_gt_cases len s) as [L|L].
  - replace (Z.to_nat (Z.min (Z.of_nat s) (Z.of_nat len))) with len by lia.
    rewrite (skipn_all2 l (n := s)) by (fold len; lia).
    subst len. rewrite skipn_all. now rewrite !firstn_nil.
  - replace (Z.to_nat (Z.min (Z.of_nat s) (Z.of_nat len))) with s by lia.
    assert (S' : length (skipn s l) = len - s) by apply length_skipn.
    destruct (Nat.le_gt_cases (s + 10) len) as [E|E].
    + f_equal. lia.
    + rewrite !firstn_all2; trivial; lia.
Qed.

Lemma chunks_concat n (l : list Transformed) :
  length l <= 10 * n ->
  concat (map (fun k => firstn 10 (skipn (k * 10) l)) (List.seq 0 n)) = l.
Proof.
  revert l. induction n as [|n IH]; intros l H.
  - destruct l; [reflexivity | simpl in H; lia].
  - cbn [List.seq map concat]. rewrite <- seq_shift, map_map.
    rewrite (map_ext _ (fun k => firstn 10 (skipn (k * 10) (skipn 10 l)))).
    + rewrite IH; [apply firstn_skipn|]. rewrite length_skipn. lia.
    + intros k. rewrite skipn_skipn. do 2 f_equal. lia.
Qed.

Lemma pagesUpTo_chunks l n :
  pagesUpTo l n = map (fun k => firstn 10 (skipn (k * 10) l)) (List.seq 0 n).
Proof.
  unfold pagesUpTo. rewrite <- seq_shift, map_map. apply map_ext.
  intros k. apply pageExercises_nat.
Qed.

Lemma pages_bounds (l : list Transformed) :
  10 * ((length l + 9) / 10) <= length l + 9 < 10 * ((length l + 9) / 10) + 10.
Proof.
  pose proof (Nat.div_mod (length l + 9) 10).
  pose proof (Nat.mod_upper_bound (length l + 9) 10). lia.
Qed.

Lemma page_filled (l : list Transformed) k :
  1 <= k <= (length l + 9) / 10 ->
  1 <= length (Frontend.pageExercises
                 {| Frontend.allExercises := l;
                    Frontend.currentPage := Z.of_nat k |}) <= 10.
Proof.
  pose proof (pages_bounds l) as D.
  destruct k as [|k]; [lia|]. intros H. rewrite pageExercises_nat.
  rewrite length_firstn, length_skipn. lia.
Qed.

Lemma page_beyond (l : list Transformed) k :
  (length l + 9) / 10 < k ->
  Frontend.pageExercises
    {| Frontend.allExercises := l; Frontend.currentPage := Z.of_nat k |} = [].
Proof.
  pose proof (pages_bounds l) as D.
  destruct k as [|k]; [lia|]. intros H. rewrite pageExercises_nat.
  rewrite skipn_all2 by lia. apply firstn_nil.
Qed.

(** X21.  The pages 1 to [totalPages] put end to end are the list: every
    exercise is shown on exactly one page, in order.  Each of these pages
    holds between 1 and 10 exercises, and every page after them is empty. *)
Theorem pages_partition_list :
  forall (l : list Transformed),
    let pages := (length l + 9) / 10 in
    let page k := Frontend.pageExercises
                    {| Frontend.allExercises := l;
                       Frontend.currentPage := Z.of_nat k |} in
    (forall k, Frontend.totalPages
                 {| Frontend.allExercises := l; Frontend.currentPage := k |}
               = Z.of_nat pages)
    /\ concat (pagesUpTo l pages) = l
    /\ (forall k, 1 <= k <= pages -> 1 <= length (page k) <= 10)
    /\ (forall k, pages < k -> page k = []).
Proof.
  intros l pages page.
  pose proof (pages_bounds l) as D. fold pages in D.
  split; [intros k; apply totalPages_nat|]. split; [|split].
  - rewrite pagesUpTo_chunks. apply chunks_concat. lia.
  - intros k H. now apply page_filled.
  - intros k H. now apply page_beyond.
Qed.

Lemma page_same p :
  {| Frontend.allExercises := Frontend.allExercises p;
     Frontend.currentPage := Frontend.currentPage p |} = p.
Proof. now destruct p. Qed.

(** X22.  From a page of the list the two buttons lead to a page of the
    list, and the page shown is never empty unless the list is.  A button
    is disabled exactly when pressing it would change nothing; when "next"
    moves, "previous" leads back, and the other way round; neither touches
    the list. *)
Theorem buttons_stay_on_a_page :
  forall (p : Frontend.Page),
    OnAPage p ->
    OnAPage (Frontend.nextPage p)
    /\ OnAPage (Frontend.previousPage p)
    /\ (Frontend.allExercises p <> [] -> Frontend.pageExercises p <> [])
    /\ (Frontend.nextDisabled p = true <-> Frontend.nextPage p = p)
    /\ (Frontend.prevDisabled p = true <-> Frontend.previousPage p = p)
    /\ (Frontend.nextPage p <> p ->
        Frontend.previousPage (Frontend.nextPage p) = p)
    /\ (Frontend.previousPage p <> p ->
        Frontend.nextPage (Frontend.previousPage p) = p)
    /\ Frontend.allExercises (Frontend.nextPage p) = Frontend.allExercises p
    /\ Frontend.allExercises (Frontend.previousPage p) = Frontend.allExercises p.
Proof.
  intros [l c] V. unfold OnAPage in V. cbn [Frontend.currentPage] in V.
  rewrite totalPages_nat in V.
  set (T := Z.of_nat ((length l + 9) / 10)) in *.
  set (at_ := fun k => {| Frontend.allExercises := l; Frontend.currentPage := k |}).
  assert (TP : forall k, Frontend.totalPages (at_ k) = T)
    by (intros k; apply totalPages_nat).
  assert (NX : forall k, Frontend.nextPage (at_ k)
                         = if (k <? T)%Z then at_ (k + 1)%Z else at_ k).
  { intros k. unfold Frontend.nextPage. rewrite TP. reflexivity. }
  assert (PV : forall k, Frontend.previousPage (at_ k)
                         = if (1 <? k)%Z then at_ (k - 1)%Z else at_ k).
  { intros k. unfold Frontend.previousPage. reflexivity. }
  change {| Frontend.allExercises := l; Frontend.currentPage := c |}
    with (at_ c).
  assert (INJ : forall a b, at_ a = at_ b -> a = b)
    by (intros a b [= H]; exact H).
  unfold OnAPage. rewrite NX, PV.
  split.
  { destruct (Z.ltb_spec c T); cbn [Frontend.currentPage at_]; rewrite TP; lia. }
  split.
  { destruct (Z.ltb_spec 1 c); cbn [Frontend.currentPage at_]; rewrite TP; lia. }
  split.
  { cbn [Frontend.allExercises at_]. intros NE E.
    pose proof (page_filled l) as P.
    assert (L : 1 <= length l) by (destruct l; [contradiction | simpl; lia]).
    assert (T1 : 1 <= (length l + 9) / 10).
    { apply Nat.div_le_lower_bound; lia. }
    specialize (P (Z.to_nat c)).
    replace (Z.of_nat (Z.to_nat c)) with c in P by lia.
    unfold at_ in E. rewrite E in P. cbn [length] in P. subst T. lia. }
  split.
  { unfold Frontend.nextDisabled. rewrite TP. cbn [Frontend.currentPage at_].
    destruct (Z.ltb_spec c T), (Z.leb_spec T c); split; intros HH;
      try lia; try reflexivity; try discriminate.
    apply INJ in HH. lia. }
  split.
  { unfold Frontend.prevDisabled. cbn [Frontend.currentPage at_].
    destruct (Z.ltb_spec 1 c), (Z.eqb_spec c 1); split; intros HH;
      try lia; try reflexivity; try discriminate.
    apply INJ in HH. lia. }
  split.
  { destruct (Z.ltb_spec c T); [|congruence]. intros _. rewrite PV.
    destruct (Z.ltb_spec 1 (c + 1)); [|lia]. f_equal. lia. }
  split.
  { destruct (Z.ltb_spec 1 c); [|congruence]. intros _. rewrite NX.
    destruct (Z.ltb_spec (c - 1) T); [|lia]. f_equal. lia. }
  split.
  - now destruct (c <? T)%Z.
  - now destruct (1 <? c)%Z.
Qed.

Lemma buttons_stay_on_a_page_witness :
  OnAPage (Frontend.nextPage (Frontend.loadList (repeat (transform squat) 11)))
  /\ Frontend.currentPage
       (Frontend.nextPage (Frontend.loadList (repeat (transform squat) 11)))
     = 2%Z.
Proof.
  split; [|reflexivity].
  refine (proj1 (@buttons_stay_on_a_page
                   (Frontend.loadList (repeat (transform squat) 11)) _)).
  unfold OnAPage, Frontend.loadList. rewrite totalPages_nat. simpl. lia.
Defined.

(** X23.  Loading the favorites again keeps the page number.  When the new
    list has fewer pages than that number (the last favorite of the last
    page was removed), the page shown is empty although there are
    favorites, "next" is disabled and does nothing, and with a single page
    left the bar that holds "previous" is not shown.  Loading through
    [fetchExercises] or a search always starts on page 1. *)
Theorem favorites_refresh_can_empty_page :
  forall (p : Frontend.Page) (favorites : list Transformed),
    let p' := Frontend.loadFavorites favorites p in
    (1 <= Frontend.totalPages p' < Frontend.currentPage p)%Z ->
    favorites <> []
    /\ Frontend.pageExercises p' = []
    /\ ~ OnAPage p'
    /\ Frontend.nextDisabled p' = true
    /\ Frontend.nextPage p' = p'
    /\ (Frontend.totalPages p' = 1%Z -> Frontend.paginationShown p' = false)
    /\ OnAPage (Frontend.loadList favorites).
Proof.
  intros [l c] favorites p' H. subst p'. unfold Frontend.loadFavorites in *.
  cbn [Frontend.currentPage] in *.
  rewrite totalPages_nat in H.
  split; [|split; [|split; [|split; [|split; [|split]]]]].
  - intros ->. simpl in H. lia.
  - pose proof (page_beyond favorites) as P.
    specialize (P (Z.to_nat c)).
    replace (Z.of_nat (Z.to_nat c)) with c in P by lia.
    apply P. lia.
  - unfold OnAPage. cbn [Frontend.currentPage]. rewrite totalPages_nat. lia.
  - unfold Frontend.nextDisabled. cbn [Frontend.currentPage].
    rewrite totalPages_nat. apply Z.leb_le. lia.
  - unfold Frontend.nextPage. cbn [Frontend.currentPage].
    rewrite totalPages_nat.
    destruct (Z.ltb_spec c (Z.of_nat ((length favorites + 9) / 10)));
      [lia | reflexivity].
  - unfold Frontend.paginationShown. intros ->. reflexivity.
  - unfold OnAPage, Frontend.loadList. cbn [Frontend.currentPage].
    rewrite totalPages_nat. lia.
Qed.

Lemma favorites_refresh_can_empty_page_witness :
  Frontend.pageExercises
    (Frontend.loadFavorites (repeat (transform squat) 10)
       (Frontend.nextPage (Frontend.loadList (repeat (transform squat) 11))))
  = [].
Proof.
  apply (@favorites_refresh_can_empty_page
           (Frontend.nextPage (Frontend.loadList (repeat (transform squat) 11)))
           (repeat (transform squat) 10)).
  vm_compute. split; [intros E; discriminate E | reflexivity].
Defined.

(** ** The population script *)

Lemma has_spec all nm :
  Populate.has all nm = true <-> In nm (map api_name all).
Proof.
  unfold Populate.has. rewrite existsb_exists, in_map_iff.
  split; intros [e [H1 H2]]; exists e.
  - apply textEq_true in H2. auto.
  - split; [exact H2 | now apply textEq_true].
Qed.

Lemma addExercise_spec all x :
  (NoDup (map api_name all) -> NoDup (map api_name (Populate.addExercise all x)))
  /\ (forall e, In e (Populate.addExercise all x) -> In e all \/ e = x)
  /\ (forall nm, In nm (map api_name all) ->
                 In nm (map api_name (Populate.addExercise all x)))
  /\ In (api_name x) (map api_name (Populate.addExercise all x)).
Proof.
  unfold Populate.addExercise.
  destruct (Populate.has all (api_name x)) eqn:H.
  - apply has_spec in H. repeat split; auto.
  - assert (N : ~ In (api_name x) (map api_name all)).
    { intros I. apply has_spec in I. congruence. }
    repeat split.
    + intros U. rewrite map_app. now apply NoDup_snoc.
    + intros e I. apply in_app_or in I. destruct I as [I | [<- | []]]; auto.
    + intros nm I. rewrite map_app. apply in_or_app. now left.
    + rewrite map_app. apply in_or_app. right. now left.
Qed.

Lemma addAll_spec data all :
  let result := fold_left Populate.addExercise data all in
  (NoDup (map api_name all) -> NoDup (map api_name result))
  /\ (forall e, In e result -> In e all \/ In e data)
  /\ (forall nm, In nm (map api_name all) -> In nm (map api_name result))
  /\ (forall e, In e data -> In (api_name e) (map api_name result)).
Proof.
  revert all. induction data as [|x data IH]; intros all; cbn [fold_left].
  - repeat split; auto. intros e [].
  - destruct (addExercise_spec all x) as [A1 [A2 [A3 A4]]].
    destruct (IH (Populate.addExercise all x)) as [B1 [B2 [B3 B4]]].
    cbv zeta in *. repeat split.
    + auto.
    + intros e I. destruct (B2 e I) as [I' | I']; [|now right; right].
      destruct (A2 e I') as [I'' | ->]; [now left | right; now left].
    + auto.
    + intros e [<- | I]; auto.
Qed.

Lemma fetch_spec api reqs all :
  let result := fold_left (Populate.addResponse api) reqs all in
  (NoDup (map api_name all) -> NoDup (map api_name result))
  /\ (forall e, In e result ->
        In e all
        \/ exists request data,
             In request reqs /\ api request = inr data /\ In e data)
  /\ (forall nm, In nm (map api_name all) -> In nm (map api_name result))
  /\ (forall request data e,
        In request reqs -> api request = inr data -> In e data ->
        In (api_name e) (map api_name result)).
Proof.
  revert all. induction reqs as [|rq reqs IH]; intros all; cbn [fold_left].
  - repeat split; auto. intros ? ? ? [].
  - destruct (IH (Populate.addResponse api all rq)) as [B1 [B2 [B3 B4]]].
    cbv zeta in *. unfold Populate.addResponse in *.
    destruct (api rq) as [msg | data] eqn:E.
    + repeat split; auto.
      * intros e I. destruct (B2 e I) as [I' | [rq' [d [I1 [I2 I3]]]]];
          [now left|].
        right. exists rq', d. repeat split; auto. now right.
      * intros rq' d e [<- | I] Ed Ie; [congruence|]. eauto.
    + destruct (addAll_spec data all) as [A1 [A2 [A3 A4]]]. cbv zeta in *.
      repeat split; auto.
      * intros e I. destruct (B2 e I) as [I' | [rq' [d [I1 [I2 I3]]]]].
        -- destruct (A2 e I') as [I'' | I'']; [now left|].
           right. exists rq, data. repeat split; auto. now left.
        -- right. exists rq', d. repeat split; auto. now right.
      * intros rq' d e [<- | I] Ed Ie; [|eauto].
        rewrite E in Ed. injection Ed as <-. auto.
Qed.

(** X24.  The fetch makes 72 requests.  What it returns has no name twice;
    every exercise in it was in the answer of a request that succeeded, and
    the name of every exercise of such an answer is in it; a request that
    fails only leaves its exercises out. *)
Theorem fetch_collects_distinct_names :
  forall (api : Populate.Params -> ApiOutcome),
    let fetched := Populate.fetchExercisesFromAPI api in
    length Populate.requests = 72
    /\ NoDup (map api_name fetched)
    /\ (forall e, In e fetched ->
          exists request data,
            In request Populate.requests /\ api request = inr data
            /\ In e data)
    /\ (forall request data e,
          In request Populate.requests -> api request = inr data ->
          In e data -> In (api_name e) (map api_name fetched)).
Proof.
  intros api fetched. subst fetched. unfold Populate.fetchExercisesFromAPI.
  destruct (fetch_spec api Populate.requests []) as [F1 [F2 [_ F4]]].
  cbv zeta in *. split; [reflexivity|]. split; [apply F1; constructor|].
  split; [|exact F4].
  intros e I. destruct (F2 e I) as [[] | H]. exact H.
Qed.





Opaque Populate.fetchExercisesFromAPI.






Transparent Populate.fetchExercisesFromAPI.


(** ** More on the image lookup *)


(** X28.  A query that normalizes to the normalized name of an entry of the
    catalog (its own name, or that name in another case or with other
    separators) is never unmatched: the lookup finds a candidate, and no
    entry before the one found is that entry. *)
Theorem own_name_always_matches :
  forall (q : jsstring) (db : Catalog) (e : ImageCatalogEntry),
    In e db ->
    normalizeName q = normalizeName (name e) ->
    exists e' before after,
      matchingExercise q db = Some e'
      /\ db = before ++ e' :: after
      /\ Spec.Candidate q e'
      /\ ~ In e before.
Proof.
  intros q db e I N.
  assert (C : Spec.Candidate q e).
  { left. rewrite N. now exists [], []; rewrite app_nil_r. }
  destruct (matchingExercise q db) as [e'|] eqn:M.
  - apply matchingExercise_first in M.
    destruct M as [before [after [D [C' F]]]].
    exists e', before, after. repeat split; trivial.
    intros B. rewrite Forall_forall in F. exact (F e B C).
  - apply matchingExercise_none in M. rewrite Forall_forall in M.
    exfalso. exact (M e I C).
Qed.

Lemma own_name_always_matches_witness :
  exists e' before after,
    matchingExercise (lit "CURL") curlCatalog = Some e'
    /\ curlCatalog = before ++ e' :: after.
Proof.
  destruct (@own_name_always_matches (lit "CURL") curlCatalog
              {| name := lit "Curl";
                 images := [lit "Curl/0.jpg"; lit "Curl/1.jpg"] |})
    as [e' [before [after [M [D _]]]]].
  - right. now left.
  - reflexivity.
  - now exists e', before, after.
Defined.





Lemma normalizeName_plain x : Forall plain (normalizeName x).
Proof.
  apply Forall_trim, Forall_replaceWhiteSpaceRuns.
  - exact plain_space.
  - apply plain_after_replace.
Qed.

Lemma normalizeName_collapsed x : collapsed (normalizeName x) = true.
Proof.
  apply collapsed_trimEnd, collapsed_skipWhiteSpace.
  apply collapsed_replaceWhiteSpaceRuns.
Qed.


Lemma normalizeName_again x : normalizeName (normalizeName x) = normalizeName x.
Proof.
  unfold normalizeName at 1.
  rewrite (plain_fixed (normalizeName_plain x)).
  rewrite (collapsed_fixed _ (normalizeName_collapsed x)).
  apply trim_idem.
Qed.

(** X30.  The lookup sees a query only through its normalization: two
    queries with the same normalization get the same answer, and a query
    gets the answer of its own normalized form.  So ["Leg-Press"],
    ["leg_press"] and ["LEG   PRESS"] are one query. *)
Theorem lookup_respects_normalization :
  forall (fetched exerciseDatabase : option Catalog) (q q' : jsstring),
    (normalizeName q' = normalizeName q ->
     getExerciseImage fetched exerciseDatabase q'
     = getExerciseImage fetched exerciseDatabase q)
    /\ getExerciseImage fetched exerciseDatabase (normalizeName q)
       = getExerciseImage fetched exerciseDatabase q
    /\ normalizeName (lit "Leg-Press") = normalizeName (lit "leg_press")
    /\ normalizeName (lit "LEG   PRESS") = normalizeName (lit "leg_press").
Proof.
  intros fetched exerciseDatabase q q'.
  assert (H : forall a b, normalizeName a = normalizeName b ->
                getExerciseImage fetched exerciseDatabase a
                = getExerciseImage fetched exerciseDatabase b).
  { intros a b E. unfold getExerciseImage, matchingExercise. now rewrite E. }
  split; [apply H|]. split; [apply H, normalizeName_again|].
  split; reflexivity.
Qed.
